(** * cmv_scrape: the marker detector, the delta classifier and the dataset
    builders of [example_approach/1_cmv_scrape.py]

    Python values are embedded as follows.
    - A [str] is its sequence of Unicode code points, [list N].
    - An attribute read with [getattr(x, 'a', None)] is an [option]: [None]
      stands for a missing attribute and for the value [None] alike.  The
      [author] of a PRAW object is a [Redditor] or [None]; a [Redditor] is
      always truthy and [str(author)] is its name, so [Some name] is kept.
    - A Python [int] is a [Z], a [set] of strings a [gset].
    - A [for] loop with [break] is a structural recursion on the list it
      iterates that returns the state at the [break]. *)

From Stdlib Require Import ZArith NArith String Ascii.
From stdpp Require Import base list strings gmap sets.

Local Open Scope N_scope.

(** ** Python strings *)

Abbreviation pystr := (list N).

(** An ASCII literal of the source, as code points. *)
Definition lit (s : string) : pystr := N_of_ascii <$> list_ascii_of_string s.

(** [s.startswith(p)] *)
Fixpoint startswith (p s : pystr) : bool :=
  match p, s with
  | [], _ => true
  | a :: p', b :: s' => bool_decide (a = b) && startswith p' s'
  | _ :: _, [] => false
  end.

(** [sub in s] on strings: [sub] occurs as a contiguous run of [s]. *)
Fixpoint contains (sub s : pystr) : bool :=
  startswith sub s ||
  match s with
  | [] => false
  | _ :: s' => contains sub s'
  end.

(** [s.split(sep, 1)] for a one-character separator: cut at the first
    occurrence of [sep], or the whole string when there is none. *)
Fixpoint split1 (sep : N) (s : pystr) : list pystr :=
  match s with
  | [] => [[]]
  | a :: s' =>
      if bool_decide (a = sep) then [[]; s']
      else match split1 sep s' with
           | h :: t => (a :: h) :: t
           | [] => [[a]]
           end
  end.

(** Code points for which [str.isspace] holds; [str.strip()] removes them
    at both ends. *)
Definition isspace (c : N) : bool :=
  ((0x09 <=? c) && (c <=? 0x0D)) || ((0x1C <=? c) && (c <=? 0x20))
  || (c =? 0x85) || (c =? 0xA0) || (c =? 0x1680)
  || ((0x2000 <=? c) && (c <=? 0x200A))
  || (c =? 0x2028) || (c =? 0x2029) || (c =? 0x202F) || (c =? 0x205F)
  || (c =? 0x3000).

Fixpoint lstrip (s : pystr) : pystr :=
  match s with
  | c :: s' => if isspace c then lstrip s' else s
  | [] => []
  end.

Definition strip (s : pystr) : pystr := reverse (lstrip (reverse (lstrip s))).

(** The ASCII rule of [str.lower()] on one code point. *)
Definition ascii_lower (c : N) : N :=
  if (0x41 <=? c) && (c <=? 0x5A) then c + 0x20 else c.

(** [s.isascii()] *)
Definition isascii (s : pystr) : bool := forallb (λ c, c <? 0x80) s.

Section Model.

(** [str.lower()] maps an ASCII code point by the ASCII rule.  For the
    others it follows the Unicode character database, which is not part of
    the repository: [unicode_lower before c after] is the lower-case
    expansion of the non-ASCII code point [c] standing between [before] and
    [after] (the context only matters for the final-sigma rule). *)
Variable unicode_lower : pystr → N → pystr → pystr.

Definition lower_char (before : pystr) (c : N) (after : pystr) : pystr :=
  if c <? 0x80 then
    if (0x41 <=? c) && (c <=? 0x5A) then [c + 0x20] else [c]
  else unicode_lower before c after.

Fixpoint lower_from (before s : pystr) : pystr :=
  match s with
  | [] => []
  | c :: s' => lower_char before c s' ++ lower_from (before ++ [c]) s'
  end.

(** [s.lower()] *)
Definition lower (s : pystr) : pystr := lower_from [] s.

(** ** Utilities (the marker detector) *)

(** [not x] for an [Optional[str]]: [None] and [''] are falsy. *)
Definition falsy (x : option pystr) : bool :=
  match x with
  | None => true
  | Some [] => true
  | Some (_ :: _) => false
  end.

Definition flair_is_delta_from_op (flair : option pystr) : bool :=
  if falsy flair then false
  else
    let t := lower (strip (default [] flair)) in
    contains (lit "delta") t && contains (lit "from op") t.

(** The first two entries of the source list are the same character,
    U+2206, once typed and once escaped. *)
Definition DELTA_TOKENS : list pystr :=
  [ [0x2206]; [0x2206]; lit "!delta"; lit "delta awarded";
    lit "i award you a delta"; lit "i award a delta";
    lit "i'm awarding a delta"; lit "i am awarding a delta" ].

Definition has_delta (text : option pystr) : bool :=
  if falsy text then false
  else
    let t := lower (default [] text) in
    existsb (λ tok, contains tok t) DELTA_TOKENS.

(** ** Comments *)

(** Attribute values that the builders only copy (scores, timestamps,
    depths, counts) are kept opaque. *)
Context {Val : Type}.

(** A PRAW comment, by the attributes [build_comments_csv] reads. *)
Record Comment := {
  c_id : option pystr;
  c_body : option pystr;
  c_author : option pystr;
  c_parent_id : option pystr;
  c_score : option Val;
  c_permalink : option pystr;
  c_created_utc : option Val;
  c_depth : option Val;
}.

(** One row of the comments dataset; the fields are the keys of the
    dictionary appended in pass 2, in order. *)
Record CommentRecord := {
  comment_id : option pystr;
  post_id : pystr;
  parent_comment_id : option pystr;
  score : option Val;
  author : option pystr;
  is_op : bool;
  delta_awarded : bool;
  body : pystr;
  permalink : pystr;
  created_utc : option Val;
  depth : option Val;
}.

(** A row of the submissions CSV as [build_comments_csv] uses it: the
    columns [id] and [author], an empty cell being [None] (NaN). *)
Record SubRow := {
  sub_id : pystr;
  sub_author : option pystr;
}.

(** [str(srow['author'])] *)
Definition str_author (a : option pystr) : pystr := default (lit "nan") a.

(** [parent_full.split('_', 1)[1]]; [None] is the [IndexError], which the
    guard [startswith('t1_')] rules out (see [split_parent_t1]). *)
Definition split_parent (parent_full : pystr) : option pystr :=
  split1 0x5F parent_full !! 1%nat.

(** The body of the first loop: what one comment does to the set. *)
Definition pass1_step (op : pystr) (awarded_parent_ids : gset pystr)
    (c : Comment) : gset pystr :=
  let body := default [] (c_body c) in
  let author := c_author c in
  if bool_decide (author = Some op) && has_delta (Some body) then
    let parent_full := default [] (c_parent_id c) in
    if startswith (lit "t1_") parent_full then
      match split_parent parent_full with
      | Some p => awarded_parent_ids ∪ {[ p ]}
      | None => awarded_parent_ids
      end
    else awarded_parent_ids
  else awarded_parent_ids.

(** Pass 1: the parent comment ids that received a delta from OP. *)
Definition pass1 (op : pystr) (comment_list : list Comment) : gset pystr :=
  foldl (pass1_step op) ∅ comment_list.

(** The dictionary appended for one comment in pass 2. *)
Definition make_row (sid op : pystr) (awarded_parent_ids : gset pystr)
    (c : Comment) : CommentRecord :=
  let parent_full := default [] (c_parent_id c) in
  {| comment_id := c_id c;
     post_id := sid;
     parent_comment_id :=
       if startswith (lit "t1_") parent_full then split_parent parent_full
       else None;
     score := c_score c;
     author := c_author c;
     is_op := match c_author c with
              | Some a => bool_decide (a = op)
              | None => false
              end;
     delta_awarded := match c_id c with
                      | Some i => bool_decide (i ∈ awarded_parent_ids)
                      | None => false
                      end;
     body := default [] (c_body c);
     permalink := lit "https://reddit.com" ++ default [] (c_permalink c);
     created_utc := c_created_utc c;
     depth := c_depth c |}.

(** The state the two loops of [build_comments_csv] update: the rows, the
    counter [total], and the submissions fetched so far (one
    [reddit.submission(id=sid)] per scanned thread). *)
Record State := {
  rows : list CommentRecord;
  total : Z;
  fetched : list pystr;
}.

(** Pass 2: the inner loop, leaving at [break] when the cap is reached. *)
Fixpoint pass2 (max_comments : Z) (sid op : pystr)
    (awarded_parent_ids : gset pystr) (comment_list : list Comment)
    (st : State) : State :=
  match comment_list with
  | [] => st
  | c :: rest =>
      if (max_comments <=? total st)%Z then st
      else
        pass2 max_comments sid op awarded_parent_ids rest
          {| rows := rows st ++ [make_row sid op awarded_parent_ids c];
             total := total st + 1;
             fetched := fetched st |}
  end.

(** The remote source: [reddit sid] is [subm.comments.list()] of the
    submission [sid] once [replace_more] has run with the limits of the
    call. *)
Variable reddit : pystr → list Comment.

(** The body of the outer loop up to its closing test. *)
Definition scan_one (max_comments : Z) (srow : SubRow) (st : State) : State :=
  let sid := sub_id srow in
  let op := str_author (sub_author srow) in
  let comment_list := reddit sid in
  let awarded_parent_ids := pass1 op comment_list in
  pass2 max_comments sid op awarded_parent_ids comment_list
    {| rows := rows st; total := total st; fetched := fetched st ++ [sid] |}.

(** The outer loop over the submissions. *)
Fixpoint scan (max_comments : Z) (subs : list SubRow) (st : State) : State :=
  match subs with
  | [] => st
  | srow :: rest =>
      let st' := scan_one max_comments srow st in
      if (max_comments <=? total st')%Z then st'
      else scan max_comments rest st'
  end.

(** [author.notna() & (author.str.lower() != '[deleted]')] *)
Definition usable (srow : SubRow) : bool :=
  match sub_author srow with
  | None => false
  | Some a => negb (bool_decide (lower a = lit "[deleted]"))
  end.

(** [df.head(n)]: the first [n] rows, or all but the last [-n] rows when
    [n] is negative. *)
Definition head {A} (n : Z) (l : list A) : list A :=
  if (0 <=? n)%Z then take (Z.to_nat n) l
  else take (length l - Z.to_nat (- n))%nat l.

Definition scanned_subs (subs : list SubRow) (n_submissions : Z) : list SubRow :=
  head n_submissions (filter (λ s, usable s = true) subs).

(** [build_comments_csv], from the frame read from the submissions CSV to
    the final state; the data frame written is [rows]. *)
Definition build_comments_csv (subs : list SubRow) (n_submissions max_comments : Z)
    : State :=
  scan max_comments (scanned_subs subs n_submissions)
    {| rows := []; total := 0; fetched := [] |}.

(** The comment [d] is an acknowledgment by [op] of the comment whose
    identifier is [i]: its parent reference is the comment reference
    [t1_i], its author is [op], and its body carries a marker. *)
Definition acknowledges (op : pystr) (d : Comment) (i : pystr) : Prop :=
  c_parent_id d = Some (lit "t1_" ++ i) ∧
  c_author d = Some op ∧
  has_delta (c_body d) = true.

(** The comment [c] with another body and another author. *)
Definition with_body_author (c : Comment) (body author : option pystr) : Comment :=
  {| c_id := c_id c;
     c_body := body;
     c_author := author;
     c_parent_id := c_parent_id c;
     c_score := c_score c;
     c_permalink := c_permalink c;
     c_created_utc := c_created_utc c;
     c_depth := c_depth c |}.

(** The two passes over one thread when the cap does not cut pass 2. *)
Definition classify (sid op : pystr) (comment_list : list Comment)
    : list CommentRecord :=
  make_row sid op (pass1 op comment_list) <$> comment_list.

(** The rows of one scanned submission, uncut. *)
Definition thread_rows (srow : SubRow) : list CommentRecord :=
  classify (sub_id srow) (str_author (sub_author srow)) (reddit (sub_id srow)).

(** The rows of all the submissions, uncut. *)
Definition all_rows (subs : list SubRow) : list CommentRecord :=
  concat (thread_rows <$> subs).

(** *** Loop invariants

    The quantities in which the effect of the two loops is stated. *)

(** How many rows pass 2 appends: the comments of the thread, or what is
    left of the cap. *)
Definition emitted (max_comments : Z) (comment_list : list Comment)
    (st : State) : nat :=
  length comment_list `min` Z.to_nat (max_comments - total st).

(** The number of rows each scanned submission contributes, in scan order,
    starting from the counter [tot]; the list ends with the submission at
    which the outer loop leaves. *)
Fixpoint cuts (max_comments tot : Z) (subs : list SubRow) : list nat :=
  match subs with
  | [] => []
  | srow :: rest =>
      let k := (length (reddit (sub_id srow))
                `min` Z.to_nat (max_comments - tot))%nat in
      k :: if (max_comments <=? tot + Z.of_nat k)%Z then []
           else cuts max_comments (tot + Z.of_nat k) rest
  end.

(** The rows of each submission cut to the given lengths. *)
Definition blocks (subs : list SubRow) (ks : list nat)
    : list (list CommentRecord) :=
  zip_with (λ srow k, take k (thread_rows srow)) subs ks.

(** ** Submissions *)

(** A cell of a data frame or a value of a row dictionary. *)
Inductive Value :=
  | VNone
  | VStr (s : pystr)
  | VBool (b : bool)
  | VRaw (v : Val).

Definition of_str (x : option pystr) : Value :=
  match x with Some s => VStr s | None => VNone end.

Definition of_raw (x : option Val) : Value :=
  match x with Some v => VRaw v | None => VNone end.

(** A [dict] with string keys, in insertion order. *)
Definition Dict := list (string * Value).

Fixpoint dict_get (k : string) (d : Dict) : option Value :=
  match d with
  | [] => None
  | (k', v) :: d' => if bool_decide (k' = k) then Some v else dict_get k d'
  end.

(** A data frame: its column labels in order and one dictionary per row. *)
Record DataFrame := {
  columns : list string;
  records : list Dict;
}.

(** A frame is well formed when every row has the columns of the frame. *)
Definition well_formed (df : DataFrame) : Prop :=
  ∀ r, r ∈ records df → r.*1 = columns df.

(** [pd.DataFrame(rows)] for a list of dictionaries with the same keys: the
    columns are the keys in order, and there is none when [rows] is empty. *)
Definition DataFrame_of (rows : list Dict) : DataFrame :=
  {| columns := match rows with [] => [] | r :: _ => r.*1 end;
     records := rows |}.

(** [df.empty] *)
Definition empty (df : DataFrame) : bool :=
  bool_decide (columns df = []) || bool_decide (records df = []).

(** [df[name] = df[src].apply(f)] for a new column [name]; [None] is the
    [KeyError] of [df[src]]. *)
Definition assign_apply (name src : string) (f : Value → Value)
    (df : DataFrame) : option DataFrame :=
  if bool_decide (src ∈ columns df) then
    recs ← mapM (λ r, v ← dict_get src r; Some (r ++ [(name, f v)])) (records df);
    Some {| columns := columns df ++ [name]; records := recs |}
  else None.

(** [notna] on one cell: only [None] (NaN) is missing. *)
Definition notna (v : Value) : bool :=
  match v with VNone => false | _ => true end.

(** [df[df[col].notna()]] *)
Definition filter_notna (col : string) (df : DataFrame) : option DataFrame :=
  if bool_decide (col ∈ columns df) then
    Some {| columns := columns df;
            records :=
              filter (λ r, notna <$> dict_get col r = Some true) (records df) |}
  else None.

(** [df[cols]] for a list of labels; [None] is the [KeyError]. *)
Definition select (cols : list string) (df : DataFrame) : option DataFrame :=
  if bool_decide (cols ⊆ columns df) then
    recs ← mapM (λ r, mapM (λ c, v ← dict_get c r; Some (c, v)) cols) (records df);
    Some {| columns := cols; records := recs |}
  else None.

(** A PRAW submission, by the attributes [fetch_top_submissions] reads. *)
Record Submission := {
  s_id : option pystr;
  s_title : option pystr;
  s_author : option pystr;
  s_permalink : option pystr;
  s_url : option pystr;
  s_created_utc : option Val;
  s_score : option Val;
  s_num_comments : option Val;
  s_upvote_ratio : option Val;
  s_link_flair_text : option pystr;
  s_total_awards_received : option Val;
}.

(** [fetch_top_submissions]; [items] is what [sub.top(...)] yields. *)
Definition fetch_top_submissions (items : list Submission) : DataFrame :=
  DataFrame_of
    ((λ s,
       [ ("id", of_str (s_id s));
         ("title", VStr (default [] (s_title s)));
         ("author", of_str (s_author s));
         ("permalink", VStr (lit "https://reddit.com" ++ default [] (s_permalink s)));
         ("url", of_str (s_url s));
         ("created_utc", of_raw (s_created_utc s));
         ("score", of_raw (s_score s));
         ("num_comments", of_raw (s_num_comments s));
         ("upvote_ratio", of_raw (s_upvote_ratio s));
         ("link_flair_text", of_str (s_link_flair_text s));
         ("total_awards_received", of_raw (s_total_awards_received s)) ]%string)
     <$> items).

Definition cols : list string :=
  [ "id"; "title"; "author"; "permalink"; "url"; "created_utc"; "score";
    "num_comments"; "upvote_ratio"; "link_flair_text"; "has_delta_from_op";
    "total_awards_received" ]%string.

(** [flair_is_delta_from_op] applied to a cell. *)
Definition flair_cell (v : Value) : Value :=
  VBool (flair_is_delta_from_op (match v with VStr s => Some s | _ => None end)).

(** [build_submissions_csv]: the frame handed to [to_csv], which is also the
    frame returned; [None] stands for a [KeyError]. *)
Definition build_submissions_csv (items : list Submission) : option DataFrame :=
  let df := fetch_top_submissions items in
  if empty df then Some df
  else
    df ← assign_apply "has_delta_from_op" "link_flair_text" flair_cell df;
    df ← filter_notna "author" df;
    select cols df.

End Model.

Arguments Comment : clear implicits.
Arguments CommentRecord : clear implicits.
Arguments State : clear implicits.
Arguments Value : clear implicits.
Arguments Dict : clear implicits.
Arguments DataFrame : clear implicits.
Arguments Submission : clear implicits.

(** ** Auth *)

(** The keyword arguments [get_reddit] hands to [praw.Reddit]. *)
Record RedditArgs := {
  client_id : pystr;
  client_secret : pystr;
  user_agent : pystr;
  check_for_async : bool;
}.

(** [get_reddit]; [environ] is the process environment once [load_dotenv]
    has run, and [inl] carries the message of the [RuntimeError]. *)
Definition get_reddit (environ : gmap string pystr) : pystr + RedditArgs :=
  let cid := environ !! "REDDIT_CLIENT_ID"%string in
  let csec := environ !! "REDDIT_CLIENT_SECRET"%string in
  let ua := default (lit "changemyview-data-lab/0.1")
              (environ !! "REDDIT_USER_AGENT"%string) in
  if falsy cid || falsy csec then
    inl (lit "Missing REDDIT_CLIENT_ID or REDDIT_CLIENT_SECRET")
  else
    inr {| client_id := default [] cid;
           client_secret := default [] csec;
           user_agent := ua;
           check_for_async := false |}.

(** ** Sample data *)

(** An excerpt of the Unicode lower-case table, enough to run the examples:
    the capitals of Latin-1 and of the Greek alphabet, every other code
    point unchanged. *)
Definition excerpt_lower (before : pystr) (c : N) (after : pystr) : pystr :=
  if ((0xC0 <=? c) && (c <=? 0xDE) && negb (c =? 0xD7))
     || ((0x391 <=? c) && (c <=? 0x3A9) && negb (c =? 0x3A2))
  then [c + 0x20] else [c].

Definition sample_comment (i : string) (parent author : option string)
    (text : pystr) : Comment Z :=
  {| c_id := Some (lit i);
     c_body := Some text;
     c_author := lit <$> author;
     c_parent_id := lit <$> parent;
     c_score := Some 1%Z;
     c_permalink := Some (lit "/r/changemyview/comments/" ++ lit i);
     c_created_utc := None;
     c_depth := None |}.

(** The scenario of the spec: OP alice, bob's comment 1 under the thread
    and alice's reply 2 to it, with a marker. *)
Definition bob_1 : Comment Z :=
  sample_comment "1" (Some "t3_p1") (Some "bob") (lit "I disagree").
Definition alice_2 : Comment Z :=
  sample_comment "2" (Some "t1_1") (Some "alice")
    (0x2206 :: lit " you changed my mind").
Definition thread_p1 : list (Comment Z) := [bob_1; alice_2].

(** A thread whose first comment lost its author and was acknowledged. *)
Definition ghost_3 : Comment Z :=
  sample_comment "3" (Some "t3_p2") None (lit "Consider the base rate.").
Definition alice_4 : Comment Z :=
  sample_comment "4" (Some "t1_3") (Some "alice") (lit "!delta, thanks").
Definition thread_p2 : list (Comment Z) := [ghost_3; alice_4].

(** A marker by somebody whose handle is that of OP up to letter case. *)
Definition Alice_5 : Comment Z :=
  sample_comment "5" (Some "t1_1") (Some "Alice") (lit "!delta").

(** A comment whose parent reference is its own comment reference, and the
    same comment with another body. *)
Definition self_reply : Comment Z :=
  sample_comment "7" (Some "t1_7") (Some "alice") (lit "!delta").
Definition self_reply' : Comment Z :=
  with_body_author self_reply (Some (lit "ok")) (Some (lit "alice")).

Definition sample_reddit (sid : pystr) : list (Comment Z) :=
  if bool_decide (sid = lit "p1") then thread_p1
  else if bool_decide (sid = lit "p2") then thread_p2
  else [].

Definition reddit_self (sid : pystr) : list (Comment Z) := [self_reply].
Definition reddit_self' (sid : pystr) : list (Comment Z) := [self_reply'].

Definition sub_p1 : SubRow :=
  {| sub_id := lit "p1"; sub_author := Some (lit "alice") |}.
Definition sub_p2 : SubRow :=
  {| sub_id := lit "p2"; sub_author := Some (lit "alice") |}.
Definition sub_p7 : SubRow :=
  {| sub_id := lit "p7"; sub_author := Some (lit "alice") |}.

(** A table that maps every code point to itself. *)
Definition identity_lower (before : pystr) (c : N) (after : pystr) : pystr := [c].

(** A source that agrees with [sample_reddit] on [p1] only. *)
Definition other_reddit (sid : pystr) : list (Comment Z) :=
  if bool_decide (sid = lit "p1") then thread_p1 else [self_reply].

(** An environment with both credentials and no user agent. *)
Definition sample_environ : gmap string pystr :=
  {[ "REDDIT_CLIENT_ID"%string := lit "id0";
     "REDDIT_CLIENT_SECRET"%string := lit "secret0" ]}.

(** The rows expected for [bob_1] and for [ghost_3]. *)
Definition row_bob_1 : CommentRecord Z :=
  make_row (lit "p1") (lit "alice") (pass1 excerpt_lower (lit "alice") thread_p1) bob_1.
Definition row_ghost_3 : CommentRecord Z :=
  make_row (lit "p2") (lit "alice") (pass1 excerpt_lower (lit "alice") thread_p2) ghost_3.

(** ** Strings *)

Lemma startswith_app (p s : pystr) : startswith p (p ++ s) = true.
Proof.
  induction p as [|a p IH]; simpl; [done|].
  by rewrite bool_decide_eq_true_2.
Qed.

Lemma startswith_inv (p s : pystr) :
  startswith p s = true → s = p ++ drop (length p) s.
Proof.
  revert s. induction p as [|a p IH]; intros [|b s]; simpl; try done.
  intros [Hab Hps]%andb_true_iff. apply bool_decide_eq_true_1 in Hab.
  subst b. f_equal. by apply IH.
Qed.

(** Under the guard of the source the index [1] of the split exists, and it
    is what follows the prefix. *)
Lemma split_parent_t1 (i : pystr) : split_parent (lit "t1_" ++ i) = Some i.
Proof. reflexivity. Qed.

Lemma comment_reference (parent_full : pystr) :
  startswith (lit "t1_") parent_full = true ↔
  ∃ i, parent_full = lit "t1_" ++ i.
Proof.
  split.
  - intros H. eexists. by apply startswith_inv.
  - intros [i ->]. apply startswith_app.
Qed.

Lemma contains_app_r (sub s1 s2 : pystr) :
  contains sub s2 = true → contains sub (s1 ++ s2) = true.
Proof.
  intros H. induction s1 as [|a s1 IH]; simpl; [done|].
  rewrite IH. apply orb_true_r.
Qed.

Lemma startswith_spec (p s : pystr) :
  startswith p s = true ↔ ∃ post, s = p ++ post.
Proof.
  split.
  - intros H. eexists. by apply startswith_inv.
  - intros [post ->]. apply startswith_app.
Qed.

(** [sub in s] holds exactly when [s] splits around an occurrence of [sub]. *)
Lemma contains_spec (sub s : pystr) :
  contains sub s = true ↔ ∃ pre post, s = pre ++ sub ++ post.
Proof.
  induction s as [|a s IH]; simpl.
  - rewrite orb_false_r, startswith_spec. split.
    + intros [post H]. by exists [], post.
    + intros (pre & post & H). destruct pre; [by exists post|done].
  - rewrite orb_true_iff, IH, startswith_spec. split.
    + intros [[post H]|(pre & post & ->)].
      * by exists [], post.
      * by exists (a :: pre), post.
    + intros ([|b pre] & post & H).
      * left. by exists post.
      * right. injection H as -> ->. by exists pre, post.
Qed.

Lemma contains_trans (a b c : pystr) :
  contains a b = true → contains b c = true → contains a c = true.
Proof.
  rewrite !contains_spec. intros (p1 & q1 & ->) (p2 & q2 & ->).
  exists (p2 ++ p1), (q1 ++ q2). by rewrite <- !app_assoc.
Qed.

Lemma contains_app_l (sub s1 s2 : pystr) :
  contains sub s1 = true → contains sub (s1 ++ s2) = true.
Proof.
  rewrite !contains_spec. intros (pre & post & ->).
  exists pre, (post ++ s2). by rewrite <- !app_assoc.
Qed.

Lemma contains_reverse (sub s : pystr) :
  contains (reverse sub) (reverse s) = contains sub s.
Proof.
  apply eq_iff_eq_true. rewrite !contains_spec. split.
  - intros (pre & post & H). exists (reverse post), (reverse pre).
    apply (inj reverse). by rewrite H, !reverse_app, !reverse_involutive, <- app_assoc.
  - intros (pre & post & ->). exists (reverse post), (reverse pre).
    by rewrite !reverse_app, <- app_assoc.
Qed.

(** Stripping leading white space loses no occurrence of a needle that
    starts with another character. *)
Lemma contains_lstrip (t : N) (sub s : pystr) :
  isspace t = false → contains (t :: sub) (lstrip s) = contains (t :: sub) s.
Proof.
  intros Ht. induction s as [|c s IH]; [done|].
  cbn [lstrip]. destruct (isspace c) eqn:Hc; [|done].
  rewrite IH. cbn [contains startswith].
  rewrite bool_decide_eq_false_2; [done|]. intros ->. congruence.
Qed.

Lemma contains_strip (t u : N) (sub s : pystr) :
  isspace t = false → isspace u = false →
  contains (t :: sub ++ [u]) (strip s) = contains (t :: sub ++ [u]) s.
Proof.
  intros Ht Hu. unfold strip.
  rewrite <- (contains_reverse _ (reverse _)), reverse_involutive.
  change (t :: sub ++ [u]) with ([t] ++ sub ++ [u]) at 1.
  rewrite !reverse_app, !reverse_singleton, <- app_assoc. cbn [app].
  rewrite contains_lstrip by done.
  rewrite <- (reverse_involutive (u :: reverse sub ++ [t])).
  rewrite contains_reverse, reverse_cons, reverse_app, reverse_involutive.
  rewrite reverse_singleton. cbn [app].
  change ((t :: sub) ++ [u]) with (t :: sub ++ [u]).
  by apply contains_lstrip.
Qed.

Lemma isspace_ascii_lower (c : N) : isspace (ascii_lower c) = isspace c.
Proof.
  unfold ascii_lower. destruct ((0x41 <=? c) && (c <=? 0x5A)) eqn:Hc; [|done].
  apply andb_true_iff in Hc as [H1%N.leb_le H2%N.leb_le].
  transitivity false; [|symmetry]; apply not_true_iff_false; unfold isspace;
    rewrite !orb_true_iff, !andb_true_iff, !N.leb_le, !N.eqb_eq; lia.
Qed.

Lemma lstrip_ascii_lower (s : pystr) :
  lstrip (ascii_lower <$> s) = ascii_lower <$> lstrip s.
Proof.
  induction s as [|c s IH]; [done|].
  cbn [fmap list_fmap lstrip]. rewrite isspace_ascii_lower.
  by destruct (isspace c).
Qed.

Lemma strip_ascii_lower (s : pystr) :
  strip (ascii_lower <$> s) = ascii_lower <$> strip s.
Proof.
  unfold strip.
  by rewrite lstrip_ascii_lower, <- fmap_reverse, lstrip_ascii_lower, fmap_reverse.
Qed.

Lemma isascii_Forall (s : pystr) :
  isascii s = true ↔ Forall (λ c, c < 0x80) s.
Proof.
  unfold isascii. induction s as [|c s IH]; simpl.
  - split; [constructor|done].
  - rewrite andb_true_iff, IH, Forall_cons, N.ltb_lt. done.
Qed.

Lemma lstrip_suffix (s : pystr) : lstrip s `suffix_of` s.
Proof.
  induction s as [|c s IH]; [done|]. cbn [lstrip].
  destruct (isspace c); [by apply suffix_cons_r|done].
Qed.

Lemma isascii_strip (s : pystr) : isascii s = true → isascii (strip s) = true.
Proof.
  rewrite !isascii_Forall. intros Hs. unfold strip.
  apply Forall_reverse.
  destruct (lstrip_suffix (reverse (lstrip s))) as [k1 Hk1].
  destruct (lstrip_suffix s) as [k2 Hk2].
  assert (Forall (λ c, c < 0x80) (reverse (lstrip s))) as H1.
  { apply Forall_reverse. rewrite Hk2 in Hs. by apply Forall_app in Hs as [_ ?]. }
  rewrite Hk1 in H1. by apply Forall_app in H1 as [_ ?].
Qed.

Section Properties.

Context {Val : Type}.
Variable unicode_lower : pystr → N → pystr → pystr.

Implicit Types (op sid : pystr) (c d C D : Comment Val) (cl : list (Comment Val)).
Implicit Types (X : gset pystr) (st : State Val) (srow : SubRow).
Implicit Types (df : DataFrame Val) (items : list (Submission Val)).

(** ** Pass 1 *)

Lemma has_delta_default (text : option pystr) :
  has_delta unicode_lower (Some (default [] text)) = has_delta unicode_lower text.
Proof. by destruct text. Qed.

(** One step of pass 1 adds the acknowledged identifier, or nothing. *)
Lemma pass1_step_spec op X c :
  (∃ i, acknowledges unicode_lower op c i ∧ pass1_step unicode_lower op X c = X ∪ {[ i ]})
  ∨ ((∀ i, ¬ acknowledges unicode_lower op c i) ∧ pass1_step unicode_lower op X c = X).
Proof.
  unfold pass1_step, acknowledges. cbv zeta. rewrite has_delta_default.
  destruct (decide (c_author c = Some op)) as [Ha|Ha]; cycle 1.
  { right. rewrite bool_decide_eq_false_2 by done.
    split; [|done]. by intros i (_ & ? & _). }
  rewrite bool_decide_eq_true_2 by done. cbn [andb].
  destruct (has_delta unicode_lower (c_body c)) eqn:Hd; cycle 1.
  { right. split; [|done]. intros i (_ & _ & ?). congruence. }
  destruct (startswith (lit "t1_") (default [] (c_parent_id c))) eqn:Hs.
  - apply comment_reference in Hs as [i Hi]. left. exists i.
    rewrite Hi, split_parent_t1. split; [|done].
    destruct (c_parent_id c) as [pf|]; simpl in Hi; [by subst|done].
  - right. split; [|done]. intros i (Hp & _ & _).
    rewrite Hp in Hs.
    change (startswith (lit "t1_") (lit "t1_" ++ i) = false) in Hs.
    by rewrite startswith_app in Hs.
Qed.

Lemma elem_of_pass1_step op X c i :
  i ∈ pass1_step unicode_lower op X c ↔ i ∈ X ∨ acknowledges unicode_lower op c i.
Proof.
  destruct (pass1_step_spec op X c) as [(j & Hj & ->)|[Hn ->]].
  - rewrite elem_of_union, elem_of_singleton. split; [|intros [?|Hi]].
    + intros [?| ->]; auto.
    + auto.
    + right. destruct Hj as (Hj & _), Hi as (Hi & _).
      rewrite Hj in Hi. by simplify_eq.
  - split; [auto|]. intros [?|?]; [done|]. by destruct (Hn i).
Qed.

Lemma elem_of_foldl_pass1 op X cl i :
  i ∈ foldl (pass1_step unicode_lower op) X cl ↔
  i ∈ X ∨ ∃ d, d ∈ cl ∧ acknowledges unicode_lower op d i.
Proof.
  revert X. induction cl as [|c cl IH]; intros X; simpl.
  - split; [auto|]. intros [?|(d & Hd & _)]; [done|]. by apply elem_of_nil in Hd.
  - rewrite IH, elem_of_pass1_step. split.
    + intros [[?|?]|(d & ? & ?)]; [by left|right..].
      * exists c. split; [left|done].
      * exists d. split; [by right|done].
    + intros [?|(d & [->|?]%elem_of_cons & ?)]; eauto 6.
Qed.

(** The awarded set of a thread holds exactly the acknowledged identifiers. *)
Lemma elem_of_pass1 op cl i :
  i ∈ pass1 unicode_lower op cl ↔ ∃ d, d ∈ cl ∧ acknowledges unicode_lower op d i.
Proof.
  unfold pass1. rewrite elem_of_foldl_pass1. set_solver.
Qed.

Lemma pass1_app op cl1 cl2 :
  pass1 unicode_lower op (cl1 ++ cl2) =
  pass1 unicode_lower op cl1 ∪ pass1 unicode_lower op cl2.
Proof.
  apply set_eq. intros i. rewrite elem_of_union, !elem_of_pass1.
  setoid_rewrite elem_of_app. naive_solver.
Qed.

(** ** The delta classifier *)

Lemma pass1_cons op c cl :
  pass1 unicode_lower op (c :: cl) =
  pass1_step unicode_lower op ∅ c ∪ pass1 unicode_lower op cl.
Proof.
  apply set_eq. intros i.
  rewrite elem_of_union, elem_of_pass1_step, !elem_of_pass1.
  setoid_rewrite elem_of_cons. split.
  - intros (d & [->|?] & ?); eauto.
  - intros [[?%elem_of_empty|?]|(d & ? & ?)]; [done|eauto..].
Qed.

(** A comment that adds nothing can be left out of pass 1. *)
Lemma pass1_skip op c cl1 cl2 :
  pass1_step unicode_lower op ∅ c = ∅ →
  pass1 unicode_lower op (cl1 ++ c :: cl2) = pass1 unicode_lower op (cl1 ++ cl2).
Proof.
  intros Hc. rewrite !pass1_app, pass1_cons, Hc. by rewrite (left_id_L ∅ (∪)).
Qed.

Lemma pass1_step_not_acknowledging op X c :
  (∀ i, ¬ acknowledges unicode_lower op c i) → pass1_step unicode_lower op X c = X.
Proof.
  intros Hn. destruct (pass1_step_spec op X c) as [(i & Hi & _)|[_ ?]]; [|done].
  by destruct (Hn i).
Qed.

(** C2.  In a thread no comment is its own parent: a parent reference
    denotes another comment or the thread.  For a comment whose parent
    reference is not the comment reference of its own identifier, the
    [delta_awarded] flag of its row is the same in two runs on sequences
    that differ only in the body and the author of that comment. *)
Theorem delta_awarded_ignores_own_fields sid op cl1 cl2 c
    (body' author' : option pystr) :
  (∀ i, c_id c = Some i → c_parent_id c ≠ Some (lit "t1_" ++ i)) →
  let c' := with_body_author c body' author' in
  delta_awarded (make_row sid op (pass1 unicode_lower op (cl1 ++ c :: cl2)) c) =
  delta_awarded (make_row sid op (pass1 unicode_lower op (cl1 ++ c' :: cl2)) c').
Proof.
  intros Hself c'. simpl. destruct (c_id c) as [i|] eqn:Hi; [|done].
  apply bool_decide_ext.
  assert (∀ x : Comment Val, c_parent_id x = c_parent_id c →
            i ∈ pass1 unicode_lower op (cl1 ++ x :: cl2) ↔
            i ∈ pass1 unicode_lower op (cl1 ++ cl2)) as Hskip.
  { intros x Hx.
    rewrite !pass1_app, pass1_cons, !elem_of_union, elem_of_pass1_step.
    split; [|tauto].
    intros [?|[[Hi0|(Hp & _)]|?]]; [tauto| |exfalso|tauto].
    - by apply elem_of_empty in Hi0.
    - rewrite Hx in Hp. by apply (Hself i). }
  by rewrite (Hskip c), (Hskip c').
Qed.

(** C5. In pass 1 a comment changes the awarded set only if its author is
    the OP handle, compared as strings; a comment with any other author, or
    none, adds nothing, whatever its body, and the awarded set of the thread
    is the one without that comment. *)
Theorem only_op_acknowledges op X c :
  (pass1_step unicode_lower op X c ≠ X → c_author c = Some op) ∧
  (c_author c ≠ Some op →
     pass1_step unicode_lower op X c = X ∧
     ∀ cl1 cl2,
       pass1 unicode_lower op (cl1 ++ c :: cl2) = pass1 unicode_lower op (cl1 ++ cl2)).
Proof.
  assert (c_author c ≠ Some op → ∀ Y, pass1_step unicode_lower op Y c = Y) as Hne.
  { intros Ha Y. apply pass1_step_not_acknowledging. by intros i (_ & ? & _). }
  split.
  - intros Hstep. destruct (decide (c_author c = Some op)) as [|Ha]; [done|].
    by destruct Hstep; apply Hne.
  - intros Ha. split; [by apply Hne|]. intros cl1 cl2. by apply pass1_skip, Hne.
Qed.

Lemma filter_eq_not_elem (i : pystr) (l : list pystr) :
  i ∉ l → filter (λ j, j = i) l = [].
Proof.
  induction l as [|j l IH]; [done|]. intros [Hj Hl]%not_elem_of_cons.
  rewrite filter_cons, decide_False by done. by apply IH.
Qed.

Lemma once_in_NoDup (i : pystr) (l : list pystr) :
  NoDup l → i ∈ l → length (filter (λ j, j = i) l) = 1%nat.
Proof.
  induction 1 as [|j l Hj Hnd IH]; [by intros ?%elem_of_nil|].
  rewrite filter_cons. intros [->|Hi]%elem_of_cons.
  - rewrite decide_True by done. simpl. by rewrite filter_eq_not_elem.
  - rewrite decide_False by (intros ->; done). by apply IH.
Qed.

(** C7. Pass 1 is total, and a degenerate comment adds nothing to the
    awarded set: one without author, one without body, one whose parent
    reference is not a comment reference (absent, the thread root [t3_...],
    or any other shape).  Under the guard of the source the split never
    fails.  A comment that adds nothing leaves the record of every comment
    as it is without it.  Adding an identifier again changes nothing, and
    an identifier acknowledged several times is in the set once. *)
Theorem degenerate_nodes_ignored op X c :
  (c_author c = None → pass1_step unicode_lower op X c = X) ∧
  (c_body c = None → pass1_step unicode_lower op X c = X) ∧
  ((∀ i, c_parent_id c ≠ Some (lit "t1_" ++ i)) → pass1_step unicode_lower op X c = X) ∧
  (∀ t, c_parent_id c = Some (lit "t3_" ++ t) → pass1_step unicode_lower op X c = X) ∧
  (∀ parent_full, startswith (lit "t1_") parent_full = true →
     is_Some (split_parent parent_full)) ∧
  (pass1_step unicode_lower op ∅ c = ∅ →
     ∀ sid cl1 cl2 d,
       make_row sid op (pass1 unicode_lower op (cl1 ++ c :: cl2)) d =
       make_row sid op (pass1 unicode_lower op (cl1 ++ cl2)) d) ∧
  pass1_step unicode_lower op (pass1_step unicode_lower op X c) c =
    pass1_step unicode_lower op X c ∧
  (∀ cl i, i ∈ pass1 unicode_lower op cl →
     length (filter (λ j, j = i) (elements (pass1 unicode_lower op cl))) = 1%nat).
Proof.
  repeat split.
  - intros Ha. apply pass1_step_not_acknowledging. intros i (_ & ? & _). congruence.
  - intros Hb. apply pass1_step_not_acknowledging. intros i (_ & _ & Hd).
    by rewrite Hb in Hd.
  - intros Hp. apply pass1_step_not_acknowledging. intros i (? & _). by apply (Hp i).
  - intros t Ht. apply pass1_step_not_acknowledging. intros i (Hp & _).
    rewrite Ht in Hp. discriminate Hp.
  - intros parent_full [i ->]%comment_reference. by rewrite split_parent_t1.
  - intros Hc sid cl1 cl2 d. by rewrite pass1_skip.
  - destruct (pass1_step_spec op X c) as [(i & Hi & HX)|[Hn HX]].
    + rewrite HX. destruct (pass1_step_spec op (X ∪ {[i]}) c) as [(j & Hj & ->)|[_ ->]]; [|done].
      destruct Hi as (Hi & _), Hj as (Hj & _). rewrite Hi in Hj.
      simplify_eq. set_solver.
    + rewrite HX. by rewrite HX.
  - intros cl i Hi. apply once_in_NoDup; [apply NoDup_elements|].
    by apply elem_of_elements.
Qed.


(** ** The marker detector *)

(** C4. The unit facts of the marker detector.  The increment sign U+2206
    has no lower-case mapping in Unicode, which is all that is asked of the
    table. *)
Theorem marker_unit_facts :
  unicode_lower [] 0x2206 [] = [0x2206] →
  has_delta unicode_lower None = false ∧
  has_delta unicode_lower (Some []) = false ∧
  has_delta unicode_lower (Some (lit "I award you a delta")) = true ∧
  has_delta unicode_lower (Some [0x2206]) = true ∧
  has_delta unicode_lower (Some (lit "DELTA AWARDED")) = true ∧
  flair_is_delta_from_op unicode_lower None = false ∧
  flair_is_delta_from_op unicode_lower (Some (0x394 :: lit " Delta from OP")) = true ∧
  flair_is_delta_from_op unicode_lower (Some (lit "Delta")) = false.
Proof.
  intros Hincrement. repeat split; try reflexivity.
  - change (has_delta unicode_lower (Some [0x2206]))
      with (existsb (λ tok, contains tok (unicode_lower [] 0x2206 [] ++ []))
              DELTA_TOKENS).
    by rewrite Hincrement.
  - change (flair_is_delta_from_op unicode_lower (Some (0x394 :: lit " Delta from OP")))
      with (let t := unicode_lower [] 0x394 (lit " Delta from OP")
                     ++ lit " delta from op" in
            contains (lit "delta") t && contains (lit "from op") t).
    apply andb_true_iff. split; by apply contains_app_r.
Qed.

(** ** The submissions dataset *)

Lemma dict_get_is_Some (k : string) (d : Dict Val) :
  k ∈ d.*1 → is_Some (dict_get k d).
Proof.
  induction d as [|[k' v] d IH]; simpl; [by intros ?%elem_of_nil|].
  intros [->|?]%elem_of_cons.
  - by rewrite bool_decide_eq_true_2.
  - case_bool_decide; [done|]. by apply IH.
Qed.

Lemma fetch_top_submissions_wf (s : Submission Val) items :
  well_formed (fetch_top_submissions (s :: items)).
Proof.
  unfold fetch_top_submissions, DataFrame_of. intros r. cbn [records columns].
  by intros (s' & -> & _)%list_elem_of_fmap.
Qed.

Lemma assign_apply_wf name src f df :
  src ∈ columns df → well_formed df →
  ∃ df', assign_apply name src f df = Some df' ∧
         columns df' = columns df ++ [name] ∧ well_formed df'.
Proof.
  intros Hsrc Hwf. unfold assign_apply. rewrite bool_decide_eq_true_2 by done.
  match goal with |- context [mapM ?g ?l] => destruct (mapM g l) as [recs|] eqn:Hm end.
  - assert (∀ r0, r0 ∈ recs → r0.*1 = columns df ++ [name]) as Hall.
    { apply mapM_Some_1 in Hm. unfold well_formed in Hwf.
      induction Hm as [|r r' l k Hr _ IH]; intros r0; [by intros ?%elem_of_nil|].
      intros [->|?]%elem_of_cons.
      + destruct (dict_get src r) as [v|]; [|done]. injection Hr as <-.
        rewrite fmap_app. f_equal. apply Hwf. left.
      + apply IH; [|done]. intros r1 Hr1. apply Hwf. by right. }
    eexists. repeat split. exact Hall.
  - exfalso. apply mapM_None, Exists_exists in Hm as (r & Hr & Hnone).
    destruct (dict_get_is_Some src r) as [v Hv].
    + by rewrite (Hwf r Hr).
    + by rewrite Hv in Hnone.
Qed.

Lemma filter_notna_wf col df :
  col ∈ columns df → well_formed df →
  ∃ df', filter_notna col df = Some df' ∧ columns df' = columns df ∧ well_formed df'.
Proof.
  intros Hcol Hwf. unfold filter_notna. rewrite bool_decide_eq_true_2 by done.
  eexists. repeat split. intros r [_ Hr]%list_elem_of_filter. by apply Hwf.
Qed.

Lemma select_columns cs df :
  cs ⊆ columns df → well_formed df →
  ∃ df', select cs df = Some df' ∧ columns df' = cs.
Proof.
  intros Hcs Hwf. unfold select. rewrite bool_decide_eq_true_2 by done.
  match goal with |- context [mapM ?g ?l] => destruct (mapM g l) as [recs|] eqn:Hsel end.
  { eexists. by split. }
  exfalso. apply mapM_None, Exists_exists in Hsel as (r & Hr & Hnone).
  apply mapM_None, Exists_exists in Hnone as (c0 & Hc & Hget).
  destruct (dict_get_is_Some c0 r) as [v Hv].
  - rewrite (Hwf r Hr). by apply Hcs.
  - by rewrite Hv in Hget.
Qed.

(** With at least one item the frame written has the twelve columns, in the
    order of [cols]. *)
Lemma build_submissions_csv_columns (s : Submission Val) items :
  ∃ out, build_submissions_csv unicode_lower (s :: items) = Some out ∧
         columns out = cols.
Proof.
  unfold build_submissions_csv.
  pose proof (fetch_top_submissions_wf s items) as Hwf.
  set (df := fetch_top_submissions (s :: items)) in *.
  assert (Hcols : columns df =
    [ "id"; "title"; "author"; "permalink"; "url"; "created_utc"; "score";
      "num_comments"; "upvote_ratio"; "link_flair_text";
      "total_awards_received" ]%string) by done.
  change (empty df) with false. cbv iota zeta.
  destruct (assign_apply_wf "has_delta_from_op" "link_flair_text"
              (flair_cell unicode_lower) df) as (df1 & -> & Hc1 & Hwf1);
    [rewrite Hcols; set_solver|done|].
  cbn [mbind option_bind]. rewrite Hcols in Hc1.
  destruct (filter_notna_wf "author" df1) as (df2 & -> & Hc2 & Hwf2);
    [rewrite Hc1; set_solver|done|].
  cbn [mbind option_bind]. rewrite Hc1 in Hc2.
  apply select_columns; [|done]. rewrite Hc2. unfold cols. set_solver.
Qed.

(** C9, at the failing input.  When the lister yields no item the frame
    written has no column at all. *)
Theorem build_submissions_csv_no_items :
  build_submissions_csv (Val:=Val) unicode_lower [] =
  Some {| columns := []; records := [] |}.
Proof. reflexivity. Qed.

(** ** Lower-casing of ASCII text *)

Lemma lower_char_ascii (before : pystr) (c : N) (after : pystr) :
  c < 0x80 → lower_char unicode_lower before c after = [ascii_lower c].
Proof.
  intros Hc. unfold lower_char, ascii_lower.
  rewrite (proj2 (N.ltb_lt _ _) Hc). by destruct (_ && _).
Qed.

(** On ASCII text [lower] is the ASCII rule, whatever precedes. *)
Lemma lower_from_ascii before s :
  isascii s = true → lower_from unicode_lower before s = ascii_lower <$> s.
Proof.
  rewrite isascii_Forall. intros Hs. revert before.
  induction Hs as [|c s Hc _ IH]; intros before; [done|].
  cbn [lower_from]. by rewrite lower_char_ascii, IH.
Qed.

(** An ASCII run keeps its lower-case form inside any text. *)
Lemma lower_from_around before pre s post :
  isascii s = true →
  ∃ L R, lower_from unicode_lower before (pre ++ s ++ post) =
         L ++ (ascii_lower <$> s) ++ R.
Proof.
  intros Hs. revert before. induction pre as [|c pre IH]; intros before.
  - exists [], (lower_from unicode_lower (before ++ s) post). cbn [app].
    apply isascii_Forall in Hs. revert before.
    induction Hs as [|c s Hc _ IH]; intros before; cbn [app lower_from fmap list_fmap].
    + by rewrite app_nil_r.
    + rewrite lower_char_ascii by done. cbn [app]. f_equal.
      rewrite IH. by rewrite <- app_assoc.
  - destruct (IH (before ++ [c])) as (L & R & HL).
    exists (lower_char unicode_lower before c (pre ++ s ++ post) ++ L), R.
    cbn [app lower_from]. by rewrite HL, <- app_assoc.
Qed.

Lemma DELTA_TOKENS_nonempty tok : tok ∈ DELTA_TOKENS → tok ≠ [].
Proof.
  unfold DELTA_TOKENS. rewrite !elem_of_cons, elem_of_nil.
  intros H ->. repeat destruct H as [H|H]; done.
Qed.

Lemma existsb_elem_of (f : pystr → bool) (l : list pystr) :
  existsb f l = true ↔ ∃ x, x ∈ l ∧ f x = true.
Proof.
  rewrite existsb_exists. by setoid_rewrite list_elem_of_In.
Qed.

Lemma has_delta_ascii s :
  isascii s = true →
  has_delta unicode_lower (Some s) =
  existsb (λ tok, contains tok (ascii_lower <$> s)) DELTA_TOKENS.
Proof.
  intros Hs. destruct s as [|c s]; [done|].
  unfold has_delta, lower. cbn [falsy default from_option id].
  by rewrite lower_from_ascii.
Qed.

(** X1. A marker phrase written in ASCII, in any letter case, is found
    wherever it stands in the text. *)
Theorem marker_phrase_detected tok pre s post :
  tok ∈ DELTA_TOKENS →
  isascii s = true →
  ascii_lower <$> s = tok →
  has_delta unicode_lower (Some (pre ++ s ++ post)) = true.
Proof.
  intros Htok Hs Hlow.
  assert (s ≠ []) as Hne.
  { intros ->. by apply (DELTA_TOKENS_nonempty tok). }
  destruct (lower_from_around [] pre s post Hs) as (L & R & HL).
  unfold has_delta.
  replace (falsy (Some (pre ++ s ++ post))) with false
    by (destruct pre; [destruct s|]; done).
  cbv zeta. apply existsb_elem_of. exists tok. split; [done|].
  unfold lower. cbn [default from_option id]. rewrite HL, Hlow.
  apply contains_spec. eauto.
Qed.

(** X2. A text is flagged only if its lower-case form holds the word
    [delta] or the increment sign. *)
Theorem marker_needs_delta s :
  has_delta unicode_lower (Some s) = true →
  contains (lit "delta") (lower unicode_lower s) = true ∨
  contains [0x2206] (lower unicode_lower s) = true.
Proof.
  unfold has_delta. destruct (falsy (Some s)); [done|]. cbv zeta.
  cbn [default from_option id].
  intros (tok & Htok & Hin)%existsb_elem_of.
  assert (contains (lit "delta") tok = true ∨ tok = [0x2206]) as [Hd| ->].
  { unfold DELTA_TOKENS in Htok. rewrite !elem_of_cons, elem_of_nil in Htok.
    repeat destruct Htok as [->|Htok]; try (by left); try (by right); done. }
  - left. by apply (contains_trans _ tok).
  - by right.
Qed.

(** X4. On an ASCII label the flair heuristic is the test that the label,
    lower-cased, holds both [delta] and [from op]: letter case, the order of
    the two and white space around the label play no part. *)
Theorem flair_ascii s :
  isascii s = true →
  flair_is_delta_from_op unicode_lower (Some s) =
  contains (lit "delta") (ascii_lower <$> s) &&
  contains (lit "from op") (ascii_lower <$> s).
Proof.
  intros Hs. destruct s as [|c s]; [done|].
  unfold flair_is_delta_from_op, lower. cbn [falsy default from_option id].
  rewrite lower_from_ascii by by apply isascii_strip.
  rewrite <- strip_ascii_lower.
  change (lit "delta") with (0x64 :: lit "elt" ++ [0x61]).
  change (lit "from op") with (0x66 :: lit "rom o" ++ [0x70]).
  by rewrite !contains_strip.
Qed.

(** X12. A submission whose author is the removed-account sentinel in any
    letter case is not usable. *)
Theorem deleted_any_case srow a :
  sub_author srow = Some a →
  isascii a = true →
  ascii_lower <$> a = lit "[deleted]" →
  usable unicode_lower srow = false.
Proof.
  intros Ha Hascii Hlow. unfold usable, lower. rewrite Ha.
  rewrite lower_from_ascii, Hlow by done. by rewrite bool_decide_eq_true_2.
Qed.

(** X5. The [parent_comment_id] of a row is [p] exactly when the parent
    reference of the comment is the comment reference [t1_p]; it is absent
    for any other reference. *)
Theorem parent_comment_id_reference sid op X c p :
  parent_comment_id (make_row sid op X c) = Some p ↔
  c_parent_id c = Some (lit "t1_" ++ p).
Proof.
  cbn [parent_comment_id make_row].
  destruct (startswith (lit "t1_") (default [] (c_parent_id c))) eqn:Hs.
  - apply comment_reference in Hs as [i Hi]. rewrite Hi, split_parent_t1.
    destruct (c_parent_id c) as [pf|]; [|done]. cbn in Hi. subst pf.
    split; [by intros [= ->]|].
    intros H. apply (inj Some) in H.
    change (lit "t1_" ++ i = lit "t1_" ++ p) in H. apply app_inv_head in H. by subst.
  - split; [done|]. intros Hp. rewrite Hp in Hs.
    change (startswith (lit "t1_") (lit "t1_" ++ p) = false) in Hs.
    by rewrite startswith_app in Hs.
Qed.

(** X6. The awarded set of a thread depends only on which comments the
    sequence holds, and grows with them: a flag set on a part of the thread
    stays set on the whole of it, and the order of the sequence plays no
    part. *)
Theorem awarded_set_monotone op cl cl' :
  cl ⊆ cl' →
  pass1 unicode_lower op cl ⊆ pass1 unicode_lower op cl' ∧
  (∀ sid c,
     delta_awarded (make_row sid op (pass1 unicode_lower op cl) c) = true →
     delta_awarded (make_row sid op (pass1 unicode_lower op cl') c) = true) ∧
  (cl' ⊆ cl → pass1 unicode_lower op cl' = pass1 unicode_lower op cl).
Proof.
  intros Hsub.
  assert (∀ l l' : list (Comment Val), l ⊆ l' →
            pass1 unicode_lower op l ⊆ pass1 unicode_lower op l') as Hmono.
  { intros l l' Hl i. rewrite !elem_of_pass1. intros (d & Hd & Hack).
    exists d. split; [by apply Hl|done]. }
  split; [by apply Hmono|]. split.
  - intros sid c. cbn [delta_awarded make_row].
    destruct (c_id c) as [i|]; [|done].
    rewrite !bool_decide_eq_true. by apply Hmono.
  - intros Hsup. apply set_eq. intros i. split; by apply Hmono.
Qed.

(** ** The submissions builder, in full *)

Lemma mapM_fmap_pointwise {A B E : Type} (f : B → option E) (g : A → B) (h : A → E)
    (l : list A) :
  (∀ x, f (g x) = Some (h x)) → mapM f (g <$> l) = Some (h <$> l).
Proof.
  intros Hf. induction l as [|x l IH]; [done|].
  cbn [fmap list_fmap mapM]. fold (g <$> l) (h <$> l). by rewrite Hf, IH.
Qed.

Lemma filter_fmap_pointwise {A B : Type} (P : B → Prop) `{!∀ y, Decision (P y)}
    (Q : A → Prop) `{!∀ x, Decision (Q x)} (g : A → B) (l : list A) :
  (∀ x, P (g x) ↔ Q x) → filter P (g <$> l) = g <$> filter Q l.
Proof.
  intros HPQ. induction l as [|x l IH]; [done|].
  cbn [fmap list_fmap]. fold (g <$> l). rewrite !filter_cons, IH.
  destruct (decide (Q x)) as [HQ|HQ].
  - by rewrite decide_True by by apply HPQ.
  - by rewrite decide_False by by rewrite HPQ.
Qed.

(** X10. [build_submissions_csv] never raises a [KeyError].  With no item
    it writes a frame without columns; with at least one it writes the
    twelve columns and one row per item that has an author, in the order of
    the lister, with the flair heuristic of that item in
    [has_delta_from_op]. *)
Theorem build_submissions_csv_rows items :
  build_submissions_csv unicode_lower items =
  Some
    match items with
    | [] => {| columns := []; records := [] |}
    | _ :: _ =>
        {| columns := cols;
           records :=
             (λ s,
                [ ("id", of_str (s_id s));
                  ("title", VStr (default [] (s_title s)));
                  ("author", of_str (s_author s));
                  ("permalink",
                     VStr (lit "https://reddit.com" ++ default [] (s_permalink s)));
                  ("url", of_str (s_url s));
                  ("created_utc", of_raw (s_created_utc s));
                  ("score", of_raw (s_score s));
                  ("num_comments", of_raw (s_num_comments s));
                  ("upvote_ratio", of_raw (s_upvote_ratio s));
                  ("link_flair_text", of_str (s_link_flair_text s));
                  ("has_delta_from_op",
                     VBool (flair_is_delta_from_op unicode_lower (s_link_flair_text s)));
                  ("total_awards_received", of_raw (s_total_awards_received s)) ]%string)
             <$> filter (λ s, is_Some (s_author s)) items |}
    end.
Proof.
  destruct items as [|s0 items]; [done|].
  set (l := s0 :: items).
  unfold build_submissions_csv, fetch_top_submissions.
  change (empty (DataFrame_of _)) with false. cbv iota.
  unfold assign_apply. cbn [columns records DataFrame_of].
  rewrite bool_decide_eq_true_2 by (subst l; cbn; set_solver).
  erewrite mapM_fmap_pointwise; cycle 1.
  { intros s. cbn. reflexivity. }
  cbn [mbind option_bind]. unfold filter_notna. cbn [columns records].
  rewrite bool_decide_eq_true_2 by (subst l; cbn; set_solver).
  cbn [mbind option_bind]. unfold select. cbn [columns records].
  rewrite bool_decide_eq_true_2 by (subst l; cbn; unfold cols; set_solver).
  erewrite (filter_fmap_pointwise _ (λ s, is_Some (s_author s))); cycle 1.
  { intros s. cbn. destruct (s_author s); cbn; split; (try by eauto); try done. }
  erewrite mapM_fmap_pointwise; cycle 1.
  { intros s. cbn. reflexivity. }
  cbn [mbind option_bind]. do 2 f_equal. apply list_fmap_ext.
  intros _ s _. unfold flair_cell. by destruct (s_link_flair_text s).
Qed.

Section Builder.

Variable reddit : pystr → list (Comment Val).

(** ** Pass 2 *)


Lemma pass2_spec max_comments sid op X cl st :
  pass2 max_comments sid op X cl st =
  {| rows := rows st ++ (make_row sid op X <$> take (emitted max_comments cl st) cl);
     total := total st + Z.of_nat (emitted max_comments cl st);
     fetched := fetched st |}.
Proof.
  unfold emitted. revert st.
  induction cl as [|c cl IH]; intros [rs tot fs];
    cbn [pass2 total rows fetched length].
  - by rewrite Nat.min_0_l, take_nil, app_nil_r, Z.add_0_r.
  - destruct (Z.leb_spec max_comments tot) as [Hle|Hlt].
    + replace (Z.to_nat (max_comments - tot)) with 0%nat by lia.
      by rewrite Nat.min_0_r, take_0, app_nil_r, Z.add_0_r.
    + rewrite IH. cbn [total rows fetched].
      replace (Z.to_nat (max_comments - tot))
        with (Datatypes.S (Z.to_nat (max_comments - (tot + 1)))) by lia.
      rewrite <- Nat.succ_min_distr, firstn_cons, fmap_cons, <- app_assoc.
      f_equal. lia.
Qed.

(** ** The scan of the submissions *)


Lemma length_thread_rows srow :
  length (thread_rows unicode_lower reddit srow) = length (reddit (sub_id srow)).
Proof. unfold thread_rows, classify. by rewrite length_fmap. Qed.

Lemma scan_one_spec max_comments srow st :
  scan_one unicode_lower reddit max_comments srow st =
  let k := emitted max_comments (reddit (sub_id srow)) st in
  {| rows := rows st ++ take k (thread_rows unicode_lower reddit srow);
     total := total st + Z.of_nat k;
     fetched := fetched st ++ [sub_id srow] |}.
Proof.
  unfold scan_one. cbv zeta. rewrite pass2_spec. unfold emitted.
  cbn [rows total fetched]. unfold thread_rows, classify.
  by rewrite fmap_take.
Qed.



Lemma blocks_nil subs : blocks unicode_lower reddit subs [] = [].
Proof. by destruct subs. Qed.

Lemma blocks_cons srow subs k ks :
  blocks unicode_lower reddit (srow :: subs) (k :: ks) =
  take k (thread_rows unicode_lower reddit srow) :: blocks unicode_lower reddit subs ks.
Proof. done. Qed.

Lemma scan_spec max_comments subs st :
  let ks := cuts reddit max_comments (total st) subs in
  scan unicode_lower reddit max_comments subs st =
  {| rows := rows st ++ concat (blocks unicode_lower reddit subs ks);
     total := total st + Z.of_nat (length (concat (blocks unicode_lower reddit subs ks)));
     fetched := fetched st ++ (sub_id <$> take (length ks) subs) |}.
Proof.
  revert st. induction subs as [|srow rest IH]; intros st; cbn [scan cuts].
  - destruct st. simpl. by rewrite !app_nil_r, Z.add_0_r.
  - rewrite scan_one_spec. cbv zeta. unfold emitted. cbn [total].
    set (k := (length (reddit (sub_id srow)) `min` Z.to_nat (max_comments - total st))%nat).
    assert (Hk : length (take k (thread_rows unicode_lower reddit srow)) = k).
    { rewrite length_take, length_thread_rows. lia. }
    destruct (Z.leb_spec max_comments (total st + Z.of_nat k)) as [Hle|Hlt].
    + rewrite blocks_cons, blocks_nil. simpl. by rewrite !app_nil_r, Hk.
    + rewrite IH. cbn [rows total fetched]. rewrite blocks_cons. simpl.
      rewrite length_app, Hk, <- !app_assoc. f_equal. lia.
Qed.

(** The blocks are the cap-long prefix of all the rows. *)
Lemma concat_blocks_cuts max_comments tot subs :
  concat (blocks unicode_lower reddit subs (cuts reddit max_comments tot subs)) =
  take (Z.to_nat (max_comments - tot)) (all_rows unicode_lower reddit subs).
Proof.
  unfold all_rows. revert tot. induction subs as [|srow rest IH]; intros tot.
  { simpl. by rewrite take_nil. }
  cbn [cuts].
  set (k := (length (reddit (sub_id srow)) `min` Z.to_nat (max_comments - tot))%nat).
  pose proof (length_thread_rows srow) as Hlen.
  rewrite fmap_cons, concat_cons.
  destruct (Z.leb_spec max_comments (tot + Z.of_nat k)) as [Hle|Hlt].
  - rewrite blocks_cons, blocks_nil. simpl. rewrite app_nil_r.
    assert (k = Z.to_nat (max_comments - tot)) as Hk by lia.
    rewrite take_app_le by lia. by rewrite <- Hk.
  - rewrite blocks_cons, concat_cons, IH.
    assert (k = length (thread_rows unicode_lower reddit srow)) as Hk by lia.
    rewrite take_app_ge by lia.
    rewrite Hk at 1. rewrite take_ge by lia. do 2 f_equal. lia.
Qed.

Lemma length_cuts max_comments tot subs :
  (length (cuts reddit max_comments tot subs) ≤ length subs)%nat.
Proof.
  revert tot. induction subs as [|srow rest IH]; intros tot; cbn [cuts]; [done|].
  case_match; simpl; [lia|]. specialize (IH (tot + Z.of_nat
    (length (reddit (sub_id srow)) `min` Z.to_nat (max_comments - tot)))%Z). lia.
Qed.

(** The first submission is always scanned. *)
Lemma cuts_cons_length max_comments tot srow rest :
  (1 ≤ length (cuts reddit max_comments tot (srow :: rest)))%nat.
Proof. cbn [cuts]. simpl. lia. Qed.

(** Only the last scanned submission can be cut short, and only by the
    cap. *)
Lemma cuts_full max_comments tot subs i srow k :
  let ks := cuts reddit max_comments tot subs in
  subs !! i = Some srow → ks !! i = Some k →
  k = length (reddit (sub_id srow)) ∨
  (Datatypes.S i = length ks ∧
   (max_comments ≤ tot + Z.of_nat (length (concat (blocks unicode_lower reddit subs ks))))%Z).
Proof.
  cbv zeta. revert tot i. induction subs as [|s rest IH]; intros tot i; [done|].
  cbn [cuts].
  set (k0 := (length (reddit (sub_id s)) `min` Z.to_nat (max_comments - tot))%nat).
  assert (Hk : length (take k0 (thread_rows unicode_lower reddit s)) = k0).
  { rewrite length_take, length_thread_rows. lia. }
  destruct (Z.leb_spec max_comments (tot + Z.of_nat k0)) as [Hle|Hlt].
  - destruct i as [|i]; simpl; [|done]. intros [= ->] [= <-].
    right. split; [done|]. rewrite blocks_nil. simpl.
    rewrite app_nil_r, Hk. lia.
  - destruct i as [|i]; simpl.
    + intros [= ->] [= <-]. left. lia.
    + intros Hs Hi. destruct (IH _ _ Hs Hi) as [?|[Hlast Hcap]]; [by left|right].
      split; [by rewrite Hlast|].
      rewrite length_app, Hk. fold (blocks unicode_lower reddit rest (cuts reddit max_comments (tot + Z.of_nat k0) rest)).
      lia.
Qed.

(** The scan goes through all the submissions unless the cap is reached. *)
Lemma cuts_all_or_cap max_comments tot subs :
  let ks := cuts reddit max_comments tot subs in
  length ks = length subs ∨
  (max_comments ≤ tot + Z.of_nat (length (concat (blocks unicode_lower reddit subs ks))))%Z.
Proof.
  cbv zeta. revert tot. induction subs as [|s rest IH]; intros tot; [by left|].
  cbn [cuts].
  set (k0 := (length (reddit (sub_id s)) `min` Z.to_nat (max_comments - tot))%nat).
  assert (Hk : length (take k0 (thread_rows unicode_lower reddit s)) = k0).
  { rewrite length_take, length_thread_rows. lia. }
  destruct (Z.leb_spec max_comments (tot + Z.of_nat k0)) as [Hle|Hlt].
  - right. rewrite blocks_cons, blocks_nil. simpl. rewrite app_nil_r, Hk. lia.
  - rewrite blocks_cons, concat_cons, length_app, Hk.
    destruct (IH (tot + Z.of_nat k0)%Z) as [Hall|Hcap].
    + left. simpl. by rewrite Hall.
    + right. lia.
Qed.

(** Once a non-empty run of submissions holds enough comments to reach the
    cap, nothing after it is scanned. *)
Lemma cuts_stop max_comments tot pre post :
  pre ≠ [] →
  (max_comments ≤ tot + Z.of_nat (length (all_rows unicode_lower reddit pre)))%Z →
  (length (cuts reddit max_comments tot (pre ++ post)) ≤ length pre)%nat.
Proof.
  unfold all_rows. revert tot. induction pre as [|s pre IH]; intros tot Hne Hcap; [done|].
  cbn [app cuts].
  set (k0 := (length (reddit (sub_id s)) `min` Z.to_nat (max_comments - tot))%nat).
  rewrite fmap_cons, concat_cons, length_app, length_thread_rows in Hcap.
  destruct (Z.leb_spec max_comments (tot + Z.of_nat k0)) as [Hle|Hlt]; simpl; [lia|].
  destruct pre as [|s' pre].
  - simpl in Hcap. lia.
  - apply le_n_S, IH; [done|]. lia.
Qed.

(** ** The builder *)

Lemma build_comments_csv_spec subs n_submissions max_comments :
  let ss := scanned_subs unicode_lower subs n_submissions in
  let ks := cuts reddit max_comments 0 ss in
  build_comments_csv unicode_lower reddit subs n_submissions max_comments =
  {| rows := concat (blocks unicode_lower reddit ss ks);
     total := Z.of_nat (length (concat (blocks unicode_lower reddit ss ks)));
     fetched := sub_id <$> take (length ks) ss |}.
Proof. unfold build_comments_csv. by rewrite scan_spec. Qed.

Lemma rows_build_comments_csv subs n_submissions max_comments :
  rows (build_comments_csv unicode_lower reddit subs n_submissions max_comments) =
  take (Z.to_nat max_comments)
    (all_rows unicode_lower reddit (scanned_subs unicode_lower subs n_submissions)).
Proof.
  rewrite build_comments_csv_spec. cbn [rows].
  by rewrite concat_blocks_cuts, Z.sub_0_r.
Qed.

Lemma elem_of_head {A} (n : Z) (l : list A) x : x ∈ head n l → x ∈ l.
Proof. unfold head. case_match; apply subseteq_take. Qed.

Lemma lower_deleted : lower unicode_lower (lit "[deleted]") = lit "[deleted]".
Proof. reflexivity. Qed.

Lemma usable_spec srow :
  usable unicode_lower srow = true ↔
  ∃ a, sub_author srow = Some a ∧ lower unicode_lower a ≠ lit "[deleted]".
Proof.
  unfold usable. destruct (sub_author srow) as [a|]; [|naive_solver].
  rewrite negb_true_iff, bool_decide_eq_false. naive_solver.
Qed.

Lemma scanned_subs_usable subs n_submissions srow :
  srow ∈ scanned_subs unicode_lower subs n_submissions →
  srow ∈ subs ∧ ∃ a, sub_author srow = Some a ∧ a ≠ lit "[deleted]".
Proof.
  intros [Hu Hin]%elem_of_head%list_elem_of_filter. split; [done|].
  apply usable_spec in Hu as (a & Ha & Hl). exists a. split; [done|].
  intros ->. by rewrite lower_deleted in Hl.
Qed.

Lemma elem_of_concat {A} (x : A) (ls : list (list A)) :
  x ∈ concat ls ↔ ∃ l, l ∈ ls ∧ x ∈ l.
Proof.
  induction ls as [|l ls IH]; simpl.
  - split; [by intros ?%elem_of_nil|]. by intros (l & ?%elem_of_nil & _).
  - rewrite elem_of_app, IH. split.
    + intros [?|(l' & ? & ?)]; [exists l|exists l']; split; try done; by constructor.
    + intros (l' & [->|?]%elem_of_cons & ?); eauto.
Qed.

Lemma elem_of_all_rows subs r :
  r ∈ all_rows unicode_lower reddit subs ↔
  ∃ srow C, srow ∈ subs ∧ C ∈ reddit (sub_id srow) ∧
    r = make_row (sub_id srow) (str_author (sub_author srow))
          (pass1 unicode_lower (str_author (sub_author srow)) (reddit (sub_id srow))) C.
Proof.
  unfold all_rows, thread_rows, classify.
  rewrite elem_of_concat. split.
  - intros (l & (srow & -> & Hs)%list_elem_of_fmap & (C & -> & HC)%list_elem_of_fmap).
    eauto 6.
  - intros (srow & C & Hs & HC & ->). eexists. split.
    + apply list_elem_of_fmap. eauto.
    + apply list_elem_of_fmap. eauto.
Qed.

Lemma delta_awarded_make_row sid op cl C :
  delta_awarded (make_row sid op (pass1 unicode_lower op cl) C) = true ↔
  ∃ i D, c_id C = Some i ∧ D ∈ cl ∧ acknowledges unicode_lower op D i.
Proof.
  simpl. destruct (c_id C) as [i|]; [|naive_solver].
  rewrite bool_decide_eq_true, elem_of_pass1. naive_solver.
Qed.


(** ** The comments dataset *)

(** C1. Every row of the comments dataset is the record of a comment [C] of
    a scanned thread whose OP handle is [op], and its [delta_awarded] flag is
    true exactly when some comment [D] of the same flattened sequence has the
    parent reference [t1_<id of C>], the author [op] and a marker in its
    body. *)
Theorem delta_awarded_iff_acknowledged subs n_submissions max_comments r :
  r ∈ rows (build_comments_csv unicode_lower reddit subs n_submissions max_comments) →
  ∃ srow op C,
    srow ∈ subs ∧ sub_author srow = Some op ∧ C ∈ reddit (sub_id srow) ∧
    r = make_row (sub_id srow) op (pass1 unicode_lower op (reddit (sub_id srow))) C ∧
    (delta_awarded r = true ↔
     ∃ i D, c_id C = Some i ∧ D ∈ reddit (sub_id srow) ∧
            acknowledges unicode_lower op D i).
Proof.
  rewrite rows_build_comments_csv. intros Hr%subseteq_take.
  apply elem_of_all_rows in Hr as (srow & C & Hs & HC & ->).
  apply scanned_subs_usable in Hs as (Hs & op & Hop & _).
  exists srow, op, C. rewrite Hop. cbn [str_author default].
  repeat split; try done; apply delta_awarded_make_row.
Qed.

(** C6. When the cap is not reached, a comment of a scanned thread whose
    author is absent is emitted as a row; the row has no author, its [is_op]
    flag is false, and its [delta_awarded] flag is true as soon as OP
    acknowledged it. *)
Theorem absent_author_row subs n_submissions max_comments srow C :
  let st := build_comments_csv unicode_lower reddit subs n_submissions max_comments in
  let op := str_author (sub_author srow) in
  let r := make_row (sub_id srow) op (pass1 unicode_lower op (reddit (sub_id srow))) C in
  srow ∈ scanned_subs unicode_lower subs n_submissions →
  C ∈ reddit (sub_id srow) →
  c_author C = None →
  (Z.of_nat (length (rows st)) < max_comments)%Z →
  r ∈ rows st ∧ author r = None ∧ is_op r = false ∧
  (∀ i D, c_id C = Some i → D ∈ reddit (sub_id srow) →
          acknowledges unicode_lower op D i → delta_awarded r = true).
Proof.
  intros st op r Hs HC Ha Hcap. split; [|split; [|split]].
  - subst st. rewrite rows_build_comments_csv in Hcap |- *.
    rewrite length_take in Hcap. rewrite take_ge by lia.
    apply elem_of_all_rows. eauto.
  - done.
  - subst r. simpl. by rewrite Ha.
  - intros i D Hi HD Hack. apply delta_awarded_make_row. eauto.
Qed.

(** C8. The submissions scanned all have an OP handle that is present and
    is not the removed-account sentinel; only they are fetched, every row
    belongs to one of them, and the run is the run on the file without the
    records whose handle is absent or the sentinel. *)
Theorem unusable_op_excluded subs n_submissions max_comments :
  let st := build_comments_csv unicode_lower reddit subs n_submissions max_comments in
  (∀ srow, srow ∈ scanned_subs unicode_lower subs n_submissions →
     srow ∈ subs ∧ ∃ a, sub_author srow = Some a ∧ a ≠ lit "[deleted]") ∧
  (∀ sid, sid ∈ fetched st →
     ∃ srow, srow ∈ scanned_subs unicode_lower subs n_submissions ∧ sub_id srow = sid) ∧
  (∀ r, r ∈ rows st →
     ∃ srow a, srow ∈ subs ∧ sub_author srow = Some a ∧ a ≠ lit "[deleted]" ∧
               post_id r = sub_id srow) ∧
  st = build_comments_csv unicode_lower reddit
         (filter (λ s, sub_author s ≠ None ∧ sub_author s ≠ Some (lit "[deleted]")) subs)
         n_submissions max_comments.
Proof.
  intros st. split; [|split; [|split]].
  - apply scanned_subs_usable.
  - intros sid. subst st. rewrite build_comments_csv_spec. cbn [fetched].
    intros (srow & -> & Hs%subseteq_take)%list_elem_of_fmap. eauto.
  - intros r. subst st. rewrite rows_build_comments_csv.
    intros Hr%subseteq_take. apply elem_of_all_rows in Hr as (srow & C & Hs & _ & ->).
    apply scanned_subs_usable in Hs as (Hs & a & Ha & Hd). eauto 6.
  - subst st. unfold build_comments_csv, scanned_subs.
    rewrite list_filter_filter. do 2 f_equal.
    apply list_filter_iff. intros s. split; [|tauto].
    intros Hu. split; [done|]. apply usable_spec in Hu as (a & Ha & Hl).
    rewrite Ha. split; [done|]. intros [= ->]. by rewrite lower_deleted in Hl.
Qed.

Lemma length_all_rows subs :
  length (all_rows unicode_lower reddit subs) =
  length (concat ((λ srow, reddit (sub_id srow)) <$> subs)).
Proof.
  unfold all_rows. induction subs as [|srow subs IH]; [done|].
  rewrite !fmap_cons, !concat_cons, !length_app, length_thread_rows. by f_equal.
Qed.

(** C10. The rows are the concatenation, in scan order, of one block per
    fetched submission; every submission selected for the scan is fetched
    unless the cap has been reached; the block of a submission holds the
    records of the first [k] comments of its flattened sequence, in that
    order, and [k] is the length of the sequence except, possibly, for the
    last block, and then only when the cap has been reached.  So no comment
    is skipped short of the cap. *)
Theorem rows_in_thread_order subs n_submissions max_comments :
  let st := build_comments_csv unicode_lower reddit subs n_submissions max_comments in
  let ss := scanned_subs unicode_lower subs n_submissions in
  ∃ ks : list nat,
    (length ks ≤ length ss)%nat ∧
    (length ks = length ss ∨ (max_comments ≤ Z.of_nat (length (rows st)))%Z) ∧
    fetched st = sub_id <$> take (length ks) ss ∧
    rows st =
      concat (zip_with
        (λ srow k,
           let op := str_author (sub_author srow) in
           let comment_list := reddit (sub_id srow) in
           make_row (sub_id srow) op (pass1 unicode_lower op comment_list)
             <$> take k comment_list)
        ss ks) ∧
    ∀ i srow k, ss !! i = Some srow → ks !! i = Some k →
      k = length (reddit (sub_id srow)) ∨
      (S i = length ks ∧ (max_comments ≤ Z.of_nat (length (rows st)))%Z).
Proof.
  intros st ss. exists (cuts reddit max_comments 0 ss).
  subst st. rewrite build_comments_csv_spec. fold ss. cbn [rows fetched].
  split; [apply length_cuts|]. split.
  { destruct (cuts_all_or_cap max_comments 0 ss) as [?|?]; [by left|right; lia]. }
  split; [done|]. split.
  - f_equal. unfold blocks. apply zip_with_ext; [|done..].
    intros srow k. unfold thread_rows, classify. by rewrite fmap_take.
  - intros i srow k Hs Hk.
    destruct (cuts_full max_comments 0 ss i srow k Hs Hk) as [?|[? ?]]; [by left|].
    right. split; [done|]. lia.
Qed.

(** C3, amended.  For a cap [B] that is not negative the dataset has at
    most [B] rows; they are the first [B] rows of the run with any larger
    cap [B'] (so of a run whose cap is never reached); and once the
    submissions scanned so far, at least one, hold [B] comments or more, no
    further submission is fetched. *)
Theorem truncation_prefix subs n_submissions B :
  (0 ≤ B)%Z →
  let st := build_comments_csv unicode_lower reddit subs n_submissions B in
  (Z.of_nat (length (rows st)) ≤ B)%Z ∧
  (∀ B', (B ≤ B')%Z →
     rows st =
     take (Z.to_nat B)
       (rows (build_comments_csv unicode_lower reddit subs n_submissions B'))) ∧
  (∀ pre post,
     scanned_subs unicode_lower subs n_submissions = pre ++ post →
     pre ≠ [] →
     (B ≤ Z.of_nat (length (concat ((λ srow, reddit (sub_id srow)) <$> pre))))%Z →
     fetched st `prefix_of` sub_id <$> pre).
Proof.
  intros HB st. subst st. split; [|split].
  - rewrite rows_build_comments_csv, length_take. lia.
  - intros B' HB'. rewrite !rows_build_comments_csv, take_take.
    f_equal. lia.
  - intros pre post Hss Hne Hcap.
    rewrite build_comments_csv_spec. cbn [fetched]. rewrite Hss.
    assert (length (cuts reddit B 0 (pre ++ post)) ≤ length pre)%nat as Hlen.
    { apply cuts_stop; [done|]. by rewrite length_all_rows. }
    rewrite take_app_le by done. rewrite fmap_take.
    apply prefix_take.
Qed.

(** ** More on the comments dataset *)

(** X7. In a run that does not reach the cap, a flagged row comes with the
    row that flags it: a row of the same submission, written by OP, whose
    [parent_comment_id] is the flagged row's [comment_id] and whose body
    carries a marker. *)
Theorem flagged_row_has_acknowledging_row subs n_submissions max_comments r :
  let st := build_comments_csv unicode_lower reddit subs n_submissions max_comments in
  (Z.of_nat (length (rows st)) < max_comments)%Z →
  r ∈ rows st →
  delta_awarded r = true →
  ∃ r', r' ∈ rows st ∧
        post_id r' = post_id r ∧
        is_op r' = true ∧
        is_Some (comment_id r) ∧
        parent_comment_id r' = comment_id r ∧
        has_delta unicode_lower (Some (body r')) = true.
Proof.
  intros st Hcap. subst st.
  rewrite rows_build_comments_csv in Hcap |- *. rewrite length_take in Hcap.
  rewrite take_ge by lia.
  intros (srow & C & Hs & HC & ->)%elem_of_all_rows.
  intros (i & D & Hi & HD & Hp & Ha & Hm)%delta_awarded_make_row.
  eexists. split; [apply elem_of_all_rows; eauto|].
  cbn [post_id is_op comment_id parent_comment_id body make_row].
  rewrite Ha, Hp, Hi, has_delta_default.
  change (startswith (lit "t1_") (default [] (Some (lit "t1_" ++ i))))
    with (startswith (lit "t1_") (lit "t1_" ++ i)).
  rewrite startswith_app. cbn [default from_option id].
  rewrite split_parent_t1, bool_decide_eq_true_2 by done. eauto.
Qed.

(** X8. No more than [n_submissions] submissions are fetched. *)
Theorem n_submissions_bounds_fetches subs n_submissions max_comments :
  (0 ≤ n_submissions)%Z →
  (length (fetched (build_comments_csv unicode_lower reddit subs
                      n_submissions max_comments))
   ≤ Z.to_nat n_submissions)%nat.
Proof.
  intros Hn. rewrite build_comments_csv_spec. cbn [fetched].
  rewrite length_fmap, length_take. unfold scanned_subs, head.
  rewrite (proj2 (Z.leb_le _ _) Hn), length_take. lia.
Qed.

(** X13. The counter [total] ends as the number of rows, and for a cap
    that is not negative the dataset has as many rows as the cap allows:
    the cap, or the number of comments of the submissions selected for the
    scan when that is less. *)
Theorem dataset_size subs n_submissions max_comments :
  (0 ≤ max_comments)%Z →
  let st := build_comments_csv unicode_lower reddit subs n_submissions max_comments in
  total st = Z.of_nat (length (rows st)) ∧
  length (rows st) =
    (Z.to_nat max_comments `min`
     length (concat ((λ srow, reddit (sub_id srow))
                       <$> scanned_subs unicode_lower subs n_submissions)))%nat.
Proof.
  intros Hcap st. split.
  - subst st. by rewrite build_comments_csv_spec.
  - subst st. by rewrite rows_build_comments_csv, length_take, length_all_rows.
Qed.

End Builder.

(** ** The remote source *)

Lemma thread_rows_ext (reddit reddit' : pystr → list (Comment Val)) srow :
  reddit' (sub_id srow) = reddit (sub_id srow) →
  thread_rows unicode_lower reddit' srow = thread_rows unicode_lower reddit srow.
Proof. unfold thread_rows. by intros ->. Qed.

Lemma cuts_ext (reddit reddit' : pystr → list (Comment Val)) max_comments tot subs :
  (∀ srow, srow ∈ take (length (cuts reddit max_comments tot subs)) subs →
           reddit' (sub_id srow) = reddit (sub_id srow)) →
  cuts reddit' max_comments tot subs = cuts reddit max_comments tot subs.
Proof.
  revert tot. induction subs as [|srow rest IH]; intros tot; [done|].
  cbn [cuts]. intros Hagree.
  rewrite (Hagree srow) by (cbn; left).
  set (k := (length (reddit (sub_id srow)) `min` Z.to_nat (max_comments - tot))%nat) in *.
  destruct (max_comments <=? tot + Z.of_nat k)%Z; [done|].
  f_equal. apply IH. intros s Hs. apply Hagree. cbn. by right.
Qed.

Lemma blocks_ext (reddit reddit' : pystr → list (Comment Val)) subs ks :
  (∀ srow, srow ∈ take (length ks) subs →
           reddit' (sub_id srow) = reddit (sub_id srow)) →
  blocks unicode_lower reddit' subs ks = blocks unicode_lower reddit subs ks.
Proof.
  revert ks. induction subs as [|srow rest IH]; intros [|k ks]; try done.
  intros Hagree. rewrite (blocks_cons reddit), (blocks_cons reddit').
  rewrite (thread_rows_ext reddit reddit') by (apply Hagree; cbn; left).
  f_equal. apply IH. intros s Hs. apply Hagree. cbn. by right.
Qed.

(** X9. The run reads the remote source at the fetched submissions only:
    a source that agrees with it on them gives the same rows, counter and
    fetches. *)
Theorem unfetched_threads_irrelevant (reddit reddit' : pystr → list (Comment Val))
    subs n_submissions max_comments :
  (∀ sid, sid ∈ fetched (build_comments_csv unicode_lower reddit subs
                           n_submissions max_comments) →
          reddit' sid = reddit sid) →
  build_comments_csv unicode_lower reddit' subs n_submissions max_comments =
  build_comments_csv unicode_lower reddit subs n_submissions max_comments.
Proof.
  rewrite (build_comments_csv_spec reddit), (build_comments_csv_spec reddit').
  cbn [fetched]. intros Hagree.
  set (ss := scanned_subs unicode_lower subs n_submissions) in *.
  assert (∀ srow, srow ∈ take (length (cuts reddit max_comments 0 ss)) ss →
                  reddit' (sub_id srow) = reddit (sub_id srow)) as Hss.
  { intros srow Hs. apply Hagree, list_elem_of_fmap. eauto. }
  rewrite (cuts_ext reddit reddit') by done.
  by rewrite (blocks_ext reddit reddit') by done.
Qed.

End Properties.

(** ** Runs on the sample data *)

(** The first scenario of the spec: bob's comment is flagged, alice's reply
    is hers and is not. *)
Example scenario_alice_bob :
  (λ r, (comment_id r, delta_awarded r, is_op r)) <$>
    rows (build_comments_csv excerpt_lower sample_reddit [sub_p1] 50 1000) =
  [ (Some (lit "1"), true, false); (Some (lit "2"), false, true) ].
Proof. vm_compute. reflexivity. Qed.

(** C1, on the sample thread. *)
Lemma delta_awarded_iff_acknowledged_sample :
  row_bob_1 ∈ rows (build_comments_csv excerpt_lower sample_reddit [sub_p1] 50 1000) ∧
  ∃ srow op C,
    srow ∈ [sub_p1] ∧ sub_author srow = Some op ∧ C ∈ sample_reddit (sub_id srow) ∧
    row_bob_1 =
      make_row (sub_id srow) op (pass1 excerpt_lower op (sample_reddit (sub_id srow))) C ∧
    (delta_awarded row_bob_1 = true ↔
     ∃ i D, c_id C = Some i ∧ D ∈ sample_reddit (sub_id srow) ∧
            acknowledges excerpt_lower op D i).
Proof.
  assert (row_bob_1 ∈ rows (build_comments_csv excerpt_lower sample_reddit [sub_p1] 50 1000))
    as Hrow by (vm_compute; left).
  split; [exact Hrow|].
  exact (delta_awarded_iff_acknowledged excerpt_lower sample_reddit [sub_p1] 50 1000
           row_bob_1 Hrow).
Defined.

(** Outside the data model: were a comment its own parent, its flag would
    follow its own body.  The source never delivers such a comment; the run
    shows that the classifier itself does not look for it. *)
Example self_reply_awards_itself :
  delta_awarded
    (make_row (lit "p7") (lit "alice")
       (pass1 excerpt_lower (lit "alice") ([] ++ self_reply :: [])) self_reply) = true ∧
  delta_awarded
    (make_row (lit "p7") (lit "alice")
       (pass1 excerpt_lower (lit "alice") ([] ++ self_reply' :: [])) self_reply') = false ∧
  delta_awarded <$>
    rows (build_comments_csv excerpt_lower reddit_self [sub_p7] 50 1000) = [true] ∧
  delta_awarded <$>
    rows (build_comments_csv excerpt_lower reddit_self' [sub_p7] 50 1000) = [false].
Proof. vm_compute. done. Qed.

(** C2, on bob's comment of the sample thread. *)
Lemma delta_awarded_ignores_own_fields_sample :
  (∀ i, c_id bob_1 = Some i → c_parent_id bob_1 ≠ Some (lit "t1_" ++ i)) ∧
  delta_awarded
    (make_row (lit "p1") (lit "alice")
       (pass1 excerpt_lower (lit "alice") ([] ++ bob_1 :: [alice_2])) bob_1) =
  delta_awarded
    (make_row (lit "p1") (lit "alice")
       (pass1 excerpt_lower (lit "alice")
          ([] ++ with_body_author bob_1 (Some (lit "!delta")) (Some (lit "alice"))
              :: [alice_2]))
       (with_body_author bob_1 (Some (lit "!delta")) (Some (lit "alice")))).
Proof.
  assert (∀ i, c_id bob_1 = Some i → c_parent_id bob_1 ≠ Some (lit "t1_" ++ i)) as Hself
    by (intros i _; discriminate).
  split; [exact Hself|].
  exact (delta_awarded_ignores_own_fields excerpt_lower (lit "p1") (lit "alice")
           [] [alice_2] bob_1 (Some (lit "!delta")) (Some (lit "alice")) Hself).
Defined.

(** C3, as stated, fails at the ends of the range of caps.  With the cap 0
    no row is emitted, so the cap is reached before any submission is
    fetched, and the first submission is fetched all the same; with the cap
    -1 the dataset, empty, has more rows than the cap. *)
Lemma zero_cap_still_scans :
  rows (build_comments_csv excerpt_lower sample_reddit [sub_p1] 50 0) = [] ∧
  fetched (build_comments_csv excerpt_lower sample_reddit [sub_p1] 50 0) = [lit "p1"] ∧
  ¬ (∀ pre post,
       scanned_subs excerpt_lower [sub_p1] 50 = pre ++ post →
       (0 ≤ Z.of_nat (length (concat ((λ srow, sample_reddit (sub_id srow)) <$> pre))))%Z →
       fetched (build_comments_csv excerpt_lower sample_reddit [sub_p1] 50 0)
         `prefix_of` sub_id <$> pre) ∧
  ¬ (Z.of_nat (length (rows (build_comments_csv excerpt_lower sample_reddit
                               [sub_p1] 50 (-1)))) ≤ -1)%Z.
Proof.
  split; [done|]. split; [done|]. split.
  - intros Hclaim. destruct (Hclaim [] [sub_p1]) as [k Hk]; [done|done|].
    discriminate Hk.
  - vm_compute. by intros [].
Qed.

(** C3, amended, on the sample thread with the cap 1. *)
Lemma truncation_prefix_sample :
  (0 ≤ 1)%Z ∧
  (Z.of_nat (length (rows (build_comments_csv excerpt_lower sample_reddit
                             [sub_p1; sub_p2] 50 1))) ≤ 1)%Z ∧
  (∀ B', (1 ≤ B')%Z →
     rows (build_comments_csv excerpt_lower sample_reddit [sub_p1; sub_p2] 50 1) =
     take (Z.to_nat 1)
       (rows (build_comments_csv excerpt_lower sample_reddit [sub_p1; sub_p2] 50 B'))) ∧
  (∀ pre post,
     scanned_subs excerpt_lower [sub_p1; sub_p2] 50 = pre ++ post →
     pre ≠ [] →
     (1 ≤ Z.of_nat (length (concat ((λ srow, sample_reddit (sub_id srow)) <$> pre))))%Z →
     fetched (build_comments_csv excerpt_lower sample_reddit [sub_p1; sub_p2] 50 1)
       `prefix_of` sub_id <$> pre).
Proof.
  assert (0 ≤ 1)%Z as Hcap by (vm_compute; discriminate).
  split; [exact Hcap|].
  exact (truncation_prefix excerpt_lower sample_reddit [sub_p1; sub_p2] 50 1 Hcap).
Defined.

(** C4, with the excerpt of the Unicode table. *)
Lemma marker_unit_facts_excerpt :
  excerpt_lower [] 0x2206 [] = [0x2206] ∧
  has_delta excerpt_lower None = false ∧
  has_delta excerpt_lower (Some []) = false ∧
  has_delta excerpt_lower (Some (lit "I award you a delta")) = true ∧
  has_delta excerpt_lower (Some [0x2206]) = true ∧
  has_delta excerpt_lower (Some (lit "DELTA AWARDED")) = true ∧
  flair_is_delta_from_op excerpt_lower None = false ∧
  flair_is_delta_from_op excerpt_lower (Some (0x394 :: lit " Delta from OP")) = true ∧
  flair_is_delta_from_op excerpt_lower (Some (lit "Delta")) = false.
Proof.
  split; [reflexivity|].
  exact (marker_unit_facts excerpt_lower eq_refl).
Defined.

(** A marker by [Alice] in a thread of [alice] awards nothing. *)
Example case_differs_no_award :
  pass1 excerpt_lower (lit "alice") [bob_1; Alice_5] = ∅ ∧
  has_delta excerpt_lower (c_body Alice_5) = true.
Proof. split; [by apply set_eq; intros i; vm_compute|done]. Qed.

(** C6, on the sample thread whose first comment has no author. *)
Lemma absent_author_row_sample :
  (sub_p2 ∈ scanned_subs excerpt_lower [sub_p2] 50 ∧
   ghost_3 ∈ sample_reddit (sub_id sub_p2) ∧
   c_author ghost_3 = None ∧
   (Z.of_nat (length (rows (build_comments_csv excerpt_lower sample_reddit
                              [sub_p2] 50 1000))) < 1000)%Z) ∧
  row_ghost_3 ∈ rows (build_comments_csv excerpt_lower sample_reddit [sub_p2] 50 1000) ∧
  author row_ghost_3 = None ∧
  is_op row_ghost_3 = false ∧
  (∀ i D, c_id ghost_3 = Some i → D ∈ sample_reddit (sub_id sub_p2) →
          acknowledges excerpt_lower (lit "alice") D i →
          delta_awarded row_ghost_3 = true).
Proof.
  assert (sub_p2 ∈ scanned_subs excerpt_lower [sub_p2] 50) as Hs by (vm_compute; left).
  assert (ghost_3 ∈ sample_reddit (sub_id sub_p2)) as HC by (vm_compute; left).
  assert (Z.of_nat (length (rows (build_comments_csv excerpt_lower sample_reddit
                                    [sub_p2] 50 1000))) < 1000)%Z as Hcap
    by (vm_compute; reflexivity).
  split; [by repeat split|].
  exact (absent_author_row excerpt_lower sample_reddit [sub_p2] 50 1000 sub_p2 ghost_3
           Hs HC eq_refl Hcap).
Defined.

(** The scenario of the spec for an absent author: the row is flagged and
    is not OP's. *)
Example scenario_absent_author :
  (λ r, (author r, delta_awarded r, is_op r)) <$>
    rows (build_comments_csv excerpt_lower sample_reddit [sub_p2] 50 1000) =
  [ (None, true, false); (Some (lit "alice"), false, true) ].
Proof. vm_compute. reflexivity. Qed.

(** C10, on the two sample threads with the cap 3: both are fetched, the
    first gives its two rows and the second the first of its two. *)
Lemma rows_in_thread_order_sample :
  ∃ ks : list nat,
    (length ks ≤ length (scanned_subs excerpt_lower [sub_p1; sub_p2] 50))%nat ∧
    (length ks = length (scanned_subs excerpt_lower [sub_p1; sub_p2] 50) ∨
     (3 ≤ Z.of_nat (length (rows (build_comments_csv excerpt_lower sample_reddit
                                    [sub_p1; sub_p2] 50 3))))%Z) ∧
    fetched (build_comments_csv excerpt_lower sample_reddit [sub_p1; sub_p2] 50 3) =
      sub_id <$> take (length ks) (scanned_subs excerpt_lower [sub_p1; sub_p2] 50) ∧
    rows (build_comments_csv excerpt_lower sample_reddit [sub_p1; sub_p2] 50 3) =
      concat (zip_with
        (λ srow k,
           let op := str_author (sub_author srow) in
           let comment_list := sample_reddit (sub_id srow) in
           make_row (sub_id srow) op (pass1 excerpt_lower op comment_list)
             <$> take k comment_list)
        (scanned_subs excerpt_lower [sub_p1; sub_p2] 50) ks) ∧
    ∀ i srow k,
      scanned_subs excerpt_lower [sub_p1; sub_p2] 50 !! i = Some srow →
      ks !! i = Some k →
      k = length (sample_reddit (sub_id srow)) ∨
      (S i = length ks ∧
       (3 ≤ Z.of_nat (length (rows (build_comments_csv excerpt_lower sample_reddit
                                      [sub_p1; sub_p2] 50 3))))%Z).
Proof.
  exact (rows_in_thread_order excerpt_lower sample_reddit [sub_p1; sub_p2] 50 3).
Defined.

(** The same run, row by row: no comment of the first thread is skipped,
    and the second thread is cut after its first comment. *)
Example rows_in_thread_order_run :
  (λ r, (post_id r, comment_id r)) <$>
    rows (build_comments_csv excerpt_lower sample_reddit [sub_p1; sub_p2] 50 3) =
  [ (lit "p1", Some (lit "1")); (lit "p1", Some (lit "2"));
    (lit "p2", Some (lit "3")) ] ∧
  fetched (build_comments_csv excerpt_lower sample_reddit [sub_p1; sub_p2] 50 3) =
  [ lit "p1"; lit "p2" ].
Proof. vm_compute. done. Qed.

(** ** Further properties *)

(** X3. On ASCII text the marker test sees neither the letter case nor
    the Unicode table. *)
Theorem has_delta_ascii_case_insensitive
    (unicode_lower unicode_lower' : pystr → N → pystr → pystr) (s s' : pystr) :
  isascii s = true →
  isascii s' = true →
  ascii_lower <$> s = ascii_lower <$> s' →
  has_delta unicode_lower (Some s) = has_delta unicode_lower' (Some s').
Proof.
  intros Hs Hs' Hlow.
  by rewrite (has_delta_ascii unicode_lower), (has_delta_ascii unicode_lower'), Hlow.
Qed.

(** X11. [get_reddit] returns the arguments of the client exactly when the
    client id and the client secret are both set and not empty, and raises
    otherwise; the user agent is the variable when it is set, even to the
    empty string, and the default when it is not; no other variable is
    read. *)
Theorem get_reddit_credentials (environ : gmap string pystr) :
  (∀ args,
     get_reddit environ = inr args ↔
     ∃ cid csec,
       environ !! "REDDIT_CLIENT_ID"%string = Some cid ∧ cid ≠ [] ∧
       environ !! "REDDIT_CLIENT_SECRET"%string = Some csec ∧ csec ≠ [] ∧
       args = {| client_id := cid;
                 client_secret := csec;
                 user_agent := default (lit "changemyview-data-lab/0.1")
                                 (environ !! "REDDIT_USER_AGENT"%string);
                 check_for_async := false |}) ∧
  (∀ message,
     get_reddit environ = inl message →
     message = lit "Missing REDDIT_CLIENT_ID or REDDIT_CLIENT_SECRET") ∧
  (∀ (name : string) value,
     name ≠ "REDDIT_CLIENT_ID"%string →
     name ≠ "REDDIT_CLIENT_SECRET"%string →
     name ≠ "REDDIT_USER_AGENT"%string →
     get_reddit (<[name := value]> environ) = get_reddit environ).
Proof.
  split; [|split].
  - intros args. unfold get_reddit. cbv zeta.
    destruct (environ !! "REDDIT_CLIENT_ID"%string) as [[|a cid]|];
      destruct (environ !! "REDDIT_CLIENT_SECRET"%string) as [[|b csec]|];
      cbn [falsy orb default from_option id]; split;
      try (intros H; discriminate H);
      try (intros (cid' & csec' & H1 & H2 & H3 & H4 & _); congruence).
    + intros [= <-]. by eexists _, _.
    + intros (cid' & csec' & [= <-] & _ & [= <-] & _ & ->). done.
  - intros message. unfold get_reddit. cbv zeta.
    destruct (_ || _); [by intros [= <-]|done].
  - intros name value H1 H2 H3. unfold get_reddit.
    by rewrite !lookup_insert_ne by done.
Qed.

(** ** More runs on the sample data *)

(** X1, on a marker in mixed case between non-ASCII text. *)
Lemma marker_phrase_detected_sample :
  (lit "!delta" ∈ DELTA_TOKENS ∧
   isascii (lit "!DeLtA") = true ∧
   ascii_lower <$> lit "!DeLtA" = lit "!delta") ∧
  has_delta excerpt_lower
    (Some ([0x394; 0x20] ++ lit "!DeLtA" ++ [0x20; 0x3A9])) = true.
Proof.
  assert (lit "!delta" ∈ DELTA_TOKENS) as Htok by (do 2 right; left).
  split; [by repeat split|].
  exact (marker_phrase_detected excerpt_lower (lit "!delta") [0x394; 0x20]
           (lit "!DeLtA") [0x20; 0x3A9] Htok eq_refl eq_refl).
Defined.

(** X2, on a flagged text. *)
Lemma marker_needs_delta_sample :
  has_delta excerpt_lower (Some (lit "I award you a DELTA")) = true ∧
  (contains (lit "delta") (lower excerpt_lower (lit "I award you a DELTA")) = true ∨
   contains [0x2206] (lower excerpt_lower (lit "I award you a DELTA")) = true).
Proof.
  split; [reflexivity|].
  exact (marker_needs_delta excerpt_lower (lit "I award you a DELTA") eq_refl).
Defined.

(** X3, on two spellings and two tables. *)
Lemma has_delta_ascii_case_insensitive_sample :
  (isascii (lit "DELTA AWARDED") = true ∧
   isascii (lit "Delta awarded") = true ∧
   ascii_lower <$> lit "DELTA AWARDED" = ascii_lower <$> lit "Delta awarded") ∧
  has_delta excerpt_lower (Some (lit "DELTA AWARDED")) =
  has_delta identity_lower (Some (lit "Delta awarded")).
Proof.
  split; [by repeat split|].
  exact (has_delta_ascii_case_insensitive excerpt_lower identity_lower
           (lit "DELTA AWARDED") (lit "Delta awarded") eq_refl eq_refl eq_refl).
Defined.

(** X4, on a label with the two parts in the other order and white space
    around. *)
Lemma flair_ascii_sample :
  isascii (lit "  From OP: Delta ") = true ∧
  flair_is_delta_from_op excerpt_lower (Some (lit "  From OP: Delta ")) =
  contains (lit "delta") (ascii_lower <$> lit "  From OP: Delta ") &&
  contains (lit "from op") (ascii_lower <$> lit "  From OP: Delta ").
Proof.
  split; [reflexivity|].
  exact (flair_ascii excerpt_lower (lit "  From OP: Delta ") eq_refl).
Defined.

(** X6, on the sample thread and its second comment alone. *)
Lemma awarded_set_monotone_sample :
  [alice_2] ⊆ thread_p1 ∧
  pass1 excerpt_lower (lit "alice") [alice_2]
    ⊆ pass1 excerpt_lower (lit "alice") thread_p1 ∧
  (∀ sid (c : Comment Z),
     delta_awarded
       (make_row sid (lit "alice") (pass1 excerpt_lower (lit "alice") [alice_2]) c) = true →
     delta_awarded
       (make_row sid (lit "alice") (pass1 excerpt_lower (lit "alice") thread_p1) c) = true) ∧
  (thread_p1 ⊆ [alice_2] →
   pass1 excerpt_lower (lit "alice") thread_p1 =
   pass1 excerpt_lower (lit "alice") [alice_2]).
Proof.
  assert ([alice_2] ⊆ thread_p1) as Hsub
    by (intros d Hd; apply list_elem_of_singleton in Hd as ->; right; left).
  split; [exact Hsub|].
  exact (awarded_set_monotone excerpt_lower (lit "alice") [alice_2] thread_p1 Hsub).
Defined.

(** X7, on the flagged row of the sample thread. *)
Lemma flagged_row_has_acknowledging_row_sample :
  ((Z.of_nat (length (rows (build_comments_csv excerpt_lower sample_reddit
                              [sub_p1] 50 1000))) < 1000)%Z ∧
   row_bob_1 ∈ rows (build_comments_csv excerpt_lower sample_reddit [sub_p1] 50 1000) ∧
   delta_awarded row_bob_1 = true) ∧
  ∃ r', r' ∈ rows (build_comments_csv excerpt_lower sample_reddit [sub_p1] 50 1000) ∧
        post_id r' = post_id row_bob_1 ∧
        is_op r' = true ∧
        is_Some (comment_id row_bob_1) ∧
        parent_comment_id r' = comment_id row_bob_1 ∧
        has_delta excerpt_lower (Some (body r')) = true.
Proof.
  assert (Z.of_nat (length (rows (build_comments_csv excerpt_lower sample_reddit
                                    [sub_p1] 50 1000))) < 1000)%Z as Hcap
    by (vm_compute; reflexivity).
  assert (row_bob_1 ∈ rows (build_comments_csv excerpt_lower sample_reddit [sub_p1] 50 1000))
    as Hrow by (vm_compute; left).
  split; [by repeat split|].
  exact (flagged_row_has_acknowledging_row excerpt_lower sample_reddit [sub_p1] 50 1000
           row_bob_1 Hcap Hrow eq_refl).
Defined.

(** With the cap 1 the flagged row is written and the row that flags it is
    not. *)
Example flagged_row_alone_under_cap :
  (λ r, (comment_id r, delta_awarded r)) <$>
    rows (build_comments_csv excerpt_lower sample_reddit [sub_p1] 50 1) =
  [ (Some (lit "1"), true) ].
Proof. vm_compute. reflexivity. Qed.

(** X8, with two usable submissions and room for one. *)
Lemma n_submissions_bounds_fetches_sample :
  (0 ≤ 1)%Z ∧
  (length (fetched (build_comments_csv excerpt_lower sample_reddit
                      [sub_p1; sub_p2] 1 1000))
   ≤ Z.to_nat 1)%nat.
Proof.
  assert (0 ≤ 1)%Z as Hn by (vm_compute; discriminate).
  split; [exact Hn|].
  exact (n_submissions_bounds_fetches excerpt_lower sample_reddit [sub_p1; sub_p2]
           1 1000 Hn).
Defined.

(** X9, with a source that differs on a submission that is not fetched. *)
Lemma unfetched_threads_irrelevant_sample :
  (∀ sid, sid ∈ fetched (build_comments_csv excerpt_lower sample_reddit
                           [sub_p1; sub_p2] 50 1) →
          other_reddit sid = sample_reddit sid) ∧
  build_comments_csv excerpt_lower other_reddit [sub_p1; sub_p2] 50 1 =
  build_comments_csv excerpt_lower sample_reddit [sub_p1; sub_p2] 50 1.
Proof.
  assert (∀ sid, sid ∈ fetched (build_comments_csv excerpt_lower sample_reddit
                                   [sub_p1; sub_p2] 50 1) →
                 other_reddit sid = sample_reddit sid) as Hagree.
  { intros sid Hsid.
    assert (fetched (build_comments_csv excerpt_lower sample_reddit
                       [sub_p1; sub_p2] 50 1) = [lit "p1"]) as Hf by (vm_compute; reflexivity).
    rewrite Hf in Hsid. apply list_elem_of_singleton in Hsid as ->. reflexivity. }
  split; [exact Hagree|].
  exact (unfetched_threads_irrelevant excerpt_lower sample_reddit other_reddit
           [sub_p1; sub_p2] 50 1 Hagree).
Defined.

(** X12, on the sentinel in capitals. *)
Lemma deleted_any_case_sample :
  (sub_author {| sub_id := lit "p9"; sub_author := Some (lit "[DELETED]") |}
     = Some (lit "[DELETED]") ∧
   isascii (lit "[DELETED]") = true ∧
   ascii_lower <$> lit "[DELETED]" = lit "[deleted]") ∧
  usable excerpt_lower {| sub_id := lit "p9"; sub_author := Some (lit "[DELETED]") |}
    = false.
Proof.
  split; [by repeat split|].
  exact (deleted_any_case excerpt_lower
           {| sub_id := lit "p9"; sub_author := Some (lit "[DELETED]") |}
           (lit "[DELETED]") eq_refl eq_refl eq_refl).
Defined.

(** X13, with the cap 3 on the four comments of the two sample threads. *)
Lemma dataset_size_sample :
  (0 ≤ 3)%Z ∧
  total (build_comments_csv excerpt_lower sample_reddit [sub_p1; sub_p2] 50 3) =
    Z.of_nat (length (rows (build_comments_csv excerpt_lower sample_reddit
                              [sub_p1; sub_p2] 50 3))) ∧
  length (rows (build_comments_csv excerpt_lower sample_reddit [sub_p1; sub_p2] 50 3)) =
    (Z.to_nat 3 `min`
     length (concat ((λ srow, sample_reddit (sub_id srow))
                       <$> scanned_subs excerpt_lower [sub_p1; sub_p2] 50)))%nat.
Proof.
  assert (0 ≤ 3)%Z as Hcap by (vm_compute; discriminate).
  split; [exact Hcap|].
  exact (dataset_size excerpt_lower sample_reddit [sub_p1; sub_p2] 50 3 Hcap).
Defined.

(** [get_reddit] on the sample environment, and without the secret. *)
Example get_reddit_sample :
  get_reddit sample_environ =
    inr {| client_id := lit "id0";
           client_secret := lit "secret0";
           user_agent := lit "changemyview-data-lab/0.1";
           check_for_async := false |} ∧
  get_reddit (delete "REDDIT_CLIENT_SECRET"%string sample_environ) =
    inl (lit "Missing REDDIT_CLIENT_ID or REDDIT_CLIENT_SECRET") ∧
  get_reddit (<["REDDIT_CLIENT_ID"%string := []]> sample_environ) =
    inl (lit "Missing REDDIT_CLIENT_ID or REDDIT_CLIENT_SECRET").
Proof. vm_compute. done. Qed.
